(** * enum_cast: translation of enumerators between equivalent enum types

    A shallow embedding of the two converters of the repository,

      - [enum_cast]            (src/enum_cast.cpp, lines 51-64), and
      - [enum_flag_bits_cast]  (src/enum_flag_bits_cast.cpp, lines 48-63),

    together with the registry they read (the [enum_category] and
    [enum_mapping_traits] specialisations), the enum-typed [operator|]
    and the example tables of both translation units.

    An enumerator is represented by the value of its underlying
    integral type, a [Z] inside the range of that type.  Template
    parameters become ordinary arguments ranging over the names of the
    enum types, and what the compiler decides while instantiating a
    template (the [static_assert]) is computed by the embedding before
    any run-time argument is supplied. *)

From Stdlib Require Import ZArith List String Ascii Bool Lia Permutation.
From Stdlib Require Import DecimalString DecimalPos DecimalZ.
Import ListNotations.
Local Open Scope Z_scope.

(** ** Integral types

    [std::underlying_type_t<E>] is an integral type: a width and a
    signedness.  Conversion to such a type reduces modulo [2 ^ bits]. *)

Module Integral.

Record t : Set := make { bits : positive; is_signed : bool }.

Definition half (T : t) : Z := 2 ^ (Z.pos (bits T) - 1).
Definition modulus (T : t) : Z := 2 ^ Z.pos (bits T).

Definition min_value (T : t) : Z :=
  if is_signed T then - half T else 0.
Definition max_value (T : t) : Z :=
  if is_signed T then half T - 1 else modulus T - 1.

Definition in_range (T : t) (z : Z) : Prop :=
  min_value T <= z <= max_value T.

(** Conversion of an integer value to [T]. *)
Definition wrap (T : t) (z : Z) : Z :=
  if is_signed T
  then (z + half T) mod modulus T - half T
  else z mod modulus T.

Definition int : t := make 32 true.
Definition unsigned_int : t := make 32 false.

End Integral.

(** ** Instantiating a template

    Instantiating [enum_cast<Dst, Src>] either yields a function or is
    rejected by the compiler.  [static_assert_failed] carries the
    message of the assertion; [ill_formed] stands for the other ways
    an instantiation of the converters is rejected: [std::get<E>] on a
    tuple that has no element of type [E], and an operator applied to
    operands it is not defined for. *)

Inductive build (A : Type) : Type :=
| Built (a : A)
| static_assert_failed (message : string)
| ill_formed.

Arguments Built {A} a.
Arguments static_assert_failed {A} message.
Arguments ill_formed {A}.

Definition static_assert {A : Type}
    (condition : bool) (message : string) (rest : build A) : build A :=
  if condition then rest else static_assert_failed message.

(** Running an instantiated function on an argument. *)
Definition call {A B : Type} (f : build (A -> B)) (a : A) : build B :=
  match f with
  | Built g => Built (g a)
  | static_assert_failed message => static_assert_failed message
  | ill_formed => ill_formed
  end.

Definition call2 {A B C : Type} (f : build (A -> B -> C)) (a : A) (b : B)
    : build C :=
  call (call f a) b.

(** Contextual conversion of an integer to [bool], as in [if (x)]. *)
Definition to_bool (z : Z) : bool := negb (z =? 0).

(** ** The registry

    The specialisations of [enum_category] and [enum_mapping_traits]
    that a translation unit declares. *)

(** [enum_mapping_traits<Tag>]: the tuple type [mapping_type], the
    table [mappings], and [std::get<E>] on a tuple, which exists for
    the element types of the tuple and yields the underlying value of
    that element. *)
Record mapping_traits (EnumT : Type) : Type := {
  mapping_type : Type;
  std_get : EnumT -> option (mapping_type -> Z);
  mappings : list mapping_type
}.

Arguments mapping_type {EnumT} _.
Arguments std_get {EnumT} _ _.
Arguments mappings {EnumT} _.

Record registry : Type := {
  (** the enum types and the category tags *)
  EnumT : Type;
  Tag : Type;
  Tag_eq_dec : forall a b : Tag, {a = b} + {a <> b};
  (** [std::underlying_type_t<Enum>] *)
  underlying_type_t : EnumT -> Integral.t;
  (** [std::is_scoped_enum_v<Enum>]: declared with [enum class] *)
  is_scoped_enum_v : EnumT -> bool;
  (** [enum_category_t<Enum>], one specialisation per enum type *)
  enum_category_t : EnumT -> Tag;
  (** [enum_mapping_traits<Tag>], one specialisation per category *)
  enum_mapping_traits : Tag -> mapping_traits EnumT
}.

(** ** The converters *)

Section Mechanism.

Variable R : registry.

(** [std::is_same_v<A, B>] *)
Definition is_same_v (a b : Tag R) : bool :=
  if Tag_eq_dec R a b then true else false.

(** [static_cast<Enum>(z)]: the enumerator whose underlying value is
    [z] converted to the underlying type of [Enum].  The opposite
    cast, [static_cast<UnderlyingType>(e)], is [Integral.wrap
    UnderlyingType] on the representation. *)
Definition static_cast (Enum : EnumT R) (z : Z) : Z :=
  Integral.wrap (underlying_type_t R Enum) z.

Definition category_message : string :=
  "Source and destination enums must be of the same category".

(** *** enum_cast (src/enum_cast.cpp, 51-64) *)

Fixpoint enum_cast_scan {M : Type} (Dst : EnumT R)
    (get_Src get_Dst : M -> Z) (table : list M) (src : Z) : Z :=
  match table with
  | [] => static_cast Dst 0
  | mapping :: rest =>
      if get_Src mapping =? src
      then get_Dst mapping
      else enum_cast_scan Dst get_Src get_Dst rest src
  end.

Definition enum_cast (Dst Src : EnumT R) : build (Z -> Z) :=
  static_assert
    (is_same_v (enum_category_t R Src) (enum_category_t R Dst))
    category_message
    (let Category := enum_category_t R Src in
     let MappingTraits := enum_mapping_traits R Category in
     match std_get MappingTraits Src, std_get MappingTraits Dst with
     | Some get_Src, Some get_Dst =>
         Built (fun src =>
           enum_cast_scan Dst get_Src get_Dst (mappings MappingTraits) src)
     | _, _ => ill_formed
     end).

(** *** enum_flag_bits_cast (src/enum_flag_bits_cast.cpp, 48-63)

    Line 56, [UnderlyingType dst;], declares the accumulator without
    an initialiser: the first [dst |= ...] and the final
    [static_cast<Dst>(dst)] read whatever the storage of [dst] holds.
    The language leaves such a read undefined; the embedding takes the
    mildest reading, an arbitrary value of [UnderlyingType], and makes
    it the argument [indeterminate] of the instantiated function.

    The AND test of line 58, [std::get<Src>(mapping) & src], has two
    operands of type [Src].  No [operator&] is declared for enum
    operands, so this is the built-in [&] on the promoted operands,
    which exists for an unscoped enumeration only: for a scoped [Src]
    the instantiation is ill-formed.  [dst |= x] stores [dst | x]
    converted back to [UnderlyingType]. *)

Fixpoint enum_flag_bits_loop {M : Type} (Dst : EnumT R)
    (get_Src get_Dst : M -> Z) (table : list M) (src dst : Z) : Z :=
  let UnderlyingType := underlying_type_t R Dst in
  match table with
  | [] => dst
  | mapping :: rest =>
      let dst :=
        if to_bool (Z.land (get_Src mapping) src)
        then Integral.wrap UnderlyingType
               (Z.lor dst (Integral.wrap UnderlyingType (get_Dst mapping)))
        else dst in
      enum_flag_bits_loop Dst get_Src get_Dst rest src dst
  end.

Definition enum_flag_bits_cast (Dst Src : EnumT R) : build (Z -> Z -> Z) :=
  static_assert
    (is_same_v (enum_category_t R Src) (enum_category_t R Dst))
    category_message
    (let Category := enum_category_t R Src in
     let MappingTraits := enum_mapping_traits R Category in
     match std_get MappingTraits Src, std_get MappingTraits Dst with
     | Some get_Src, Some get_Dst =>
         if is_scoped_enum_v R Src
         then ill_formed
         else
           Built (fun indeterminate src =>
             let dst := indeterminate in
             static_cast Dst
               (enum_flag_bits_loop Dst get_Src get_Dst
                  (mappings MappingTraits) src dst))
     | _, _ => ill_formed
     end).

(** *** operator| on enum operands (src/enum_flag_bits_cast.cpp, 94-99) *)

Definition operator_or (Enum : EnumT R) (a b : Z) : Z :=
  let UnderlyingType := underlying_type_t R Enum in
  static_cast Enum
    (Z.lor (Integral.wrap UnderlyingType a) (Integral.wrap UnderlyingType b)).

(** *** Vocabulary of the statements *)

(** The tuples of a table hold values of their element types. *)
Definition well_typed (T : mapping_traits (EnumT R)) : Prop :=
  forall (E : EnumT R) (get_E : mapping_type T -> Z) (m : mapping_type T),
    std_get T E = Some get_E -> In m (mappings T) ->
    Integral.in_range (underlying_type_t R E) (get_E m).

(** The flag conversion as the specification words it, for comparison
    with the loop above: the bitwise OR, from a zero accumulator, of
    the destination slots of the entries whose source slot intersects
    [src]. *)
Definition or_of_matching {M : Type}
    (get_Src get_Dst : M -> Z) (table : list M) (src : Z) : Z :=
  fold_right Z.lor 0
    (map get_Dst
       (filter (fun mapping => to_bool (Z.land (get_Src mapping) src))
          table)).

(** On the value [v] the table pairs slot [A] with slot [B] one to
    one: the entries holding [v] in slot [A] are exactly those
    holding its partner in slot [B]. *)
Definition bijection_on {M : Type}
    (get_A get_B : M -> Z) (table : list M) (v : Z) : Prop :=
  forall e e' : M,
    In e table -> In e' table -> get_A e = v ->
    (get_A e' = v <-> get_B e' = get_B e).

End Mechanism.

Arguments enum_cast_scan R {M} Dst get_Src get_Dst table src.
Arguments enum_flag_bits_loop R {M} Dst get_Src get_Dst table src dst.

(** The registry [R] with the table of category [T] replaced. *)
Definition with_mappings (R : registry) (T : Tag R)
    (table : list (mapping_type (enum_mapping_traits R T))) : registry :=
  {| EnumT := EnumT R;
     Tag := Tag R;
     Tag_eq_dec := Tag_eq_dec R;
     underlying_type_t := underlying_type_t R;
     is_scoped_enum_v := is_scoped_enum_v R;
     enum_category_t := enum_category_t R;
     enum_mapping_traits := fun t =>
       if Tag_eq_dec R t T
       then {| mapping_type := mapping_type (enum_mapping_traits R T);
               std_get := std_get (enum_mapping_traits R T);
               mappings := table |}
       else enum_mapping_traits R t |}.

(** ** The example declarations of src/enum_cast.cpp (85-144) *)

Module enum_cast_cpp.

(** Scoped enumerations; their underlying type is [int]. *)
Module lib_a.
Module Color.
Definition Red : Z := 3.
Definition Green : Z := 4.
Definition Blue : Z := 5.
End Color.
Module Shape.
Definition Circle : Z := 1.
Definition Square : Z := 9.
Definition Triangle : Z := 16.
End Shape.
End lib_a.

Module lib_b.
Module Color.
Definition Red : Z := 0.
Definition Green : Z := 1.
Definition Blue : Z := 2.
Definition Yellow : Z := 3.
End Color.
Module Shape.
Definition Circle : Z := 0.
Definition Square : Z := 1.
Definition Triangle : Z := 2.
End Shape.
End lib_b.

Module lib_c.
Module Color.
Definition Red : Z := 9.
Definition Green : Z := 100.
Definition Blue : Z := 101.
End Color.
Module Shape.
Definition Circle : Z := 2.
Definition Square : Z := 3.
Definition Triangle : Z := 4.
End Shape.
End lib_c.

Inductive enum_type : Set :=
| lib_a_Color | lib_a_Shape
| lib_b_Color | lib_b_Shape
| lib_c_Color | lib_c_Shape.

Inductive tag : Set := EnumColorTag | EnumShapeTag.

Definition tag_eq_dec (a b : tag) : {a = b} + {a <> b}.
Proof. decide equality. Defined.

Definition enum_category (Enum : enum_type) : tag :=
  match Enum with
  | lib_a_Color | lib_b_Color | lib_c_Color => EnumColorTag
  | lib_a_Shape | lib_b_Shape | lib_c_Shape => EnumShapeTag
  end.

(** [std::tuple<lib_a::X, lib_b::X, lib_c::X>] *)
Definition triple : Type := Z * Z * Z.

Definition get_0 (mapping : triple) : Z := fst (fst mapping).
Definition get_1 (mapping : triple) : Z := snd (fst mapping).
Definition get_2 (mapping : triple) : Z := snd mapping.

Definition enum_mapping_traits_EnumColorTag : mapping_traits enum_type :=
  {| mapping_type := triple;
     std_get := fun Enum =>
       match Enum with
       | lib_a_Color => Some get_0
       | lib_b_Color => Some get_1
       | lib_c_Color => Some get_2
       | _ => None
       end;
     mappings :=
       [ (lib_a.Color.Red, lib_b.Color.Red, lib_c.Color.Red);
         (lib_a.Color.Green, lib_b.Color.Green, lib_c.Color.Green);
         (lib_a.Color.Blue, lib_b.Color.Blue, lib_c.Color.Blue) ] |}.

Definition enum_mapping_traits_EnumShapeTag : mapping_traits enum_type :=
  {| mapping_type := triple;
     std_get := fun Enum =>
       match Enum with
       | lib_a_Shape => Some get_0
       | lib_b_Shape => Some get_1
       | lib_c_Shape => Some get_2
       | _ => None
       end;
     mappings :=
       [ (lib_a.Shape.Circle, lib_b.Shape.Circle, lib_c.Shape.Circle);
         (lib_a.Shape.Square, lib_b.Shape.Square, lib_c.Shape.Square);
         (lib_a.Shape.Triangle, lib_b.Shape.Triangle,
          lib_c.Shape.Triangle) ] |}.

Definition declarations : registry :=
  {| EnumT := enum_type;
     Tag := tag;
     Tag_eq_dec := tag_eq_dec;
     underlying_type_t := fun _ => Integral.int;
     is_scoped_enum_v := fun _ => true;
     enum_category_t := enum_category;
     enum_mapping_traits := fun Category =>
       match Category with
       | EnumColorTag => enum_mapping_traits_EnumColorTag
       | EnumShapeTag => enum_mapping_traits_EnumShapeTag
       end |}.

End enum_cast_cpp.

(** ** Output (src/enum_flag_bits_cast.cpp, 123-128)

    [std::cout] is the text written so far; [os << x] appends to it. *)










(** ** The example declarations of src/enum_flag_bits_cast.cpp (65-117) *)

Module enum_flag_bits_cast_cpp.

(** Unscoped enumerations without a fixed underlying type.  The
    implementation chooses the underlying type; with no negative
    enumerator the usual choice is [unsigned int]. *)
Module lib_a.
Module Permission.
Definition None : Z := 0x00.
Definition Read : Z := 0x01.
Definition Write : Z := 0x02.
Definition Execute : Z := 0x04.
Definition ReadWrite : Z := Z.lor Read Write.
Definition ReadExecute : Z := Z.lor Read Execute.
Definition WriteExecute : Z := Z.lor Write Execute.
Definition All : Z := Z.lor (Z.lor Read Write) Execute.
End Permission.
End lib_a.

Module lib_b.
Module Permission.
Definition NONE : Z := 0.
Definition READ : Z := Z.shiftl 1 2.
Definition WRITE : Z := Z.shiftl 1 3.
Definition EXECUTE : Z := Z.shiftl 1 4.
End Permission.
End lib_b.

Inductive enum_type : Set := lib_a_Permission | lib_b_Permission.

Inductive tag : Set := PermissionTag.

Definition tag_eq_dec (a b : tag) : {a = b} + {a <> b}.
Proof. decide equality. Defined.

(** [std::tuple<lib_a::Permission, lib_b::Permission>] *)
Definition pair : Type := Z * Z.

Definition get_0 (mapping : pair) : Z := fst mapping.
Definition get_1 (mapping : pair) : Z := snd mapping.

Definition enum_mapping_traits_PermissionTag : mapping_traits enum_type :=
  {| mapping_type := pair;
     std_get := fun Enum =>
       match Enum with
       | lib_a_Permission => Some get_0
       | lib_b_Permission => Some get_1
       end;
     mappings :=
       [ (lib_a.Permission.None, lib_b.Permission.NONE);
         (lib_a.Permission.Read, lib_b.Permission.READ);
         (lib_a.Permission.Write, lib_b.Permission.WRITE);
         (lib_a.Permission.Execute, lib_b.Permission.EXECUTE) ] |}.

Definition declarations : registry :=
  {| EnumT := enum_type;
     Tag := tag;
     Tag_eq_dec := tag_eq_dec;
     underlying_type_t := fun _ => Integral.unsigned_int;
     is_scoped_enum_v := fun _ => false;
     enum_category_t := fun _ => PermissionTag;
     enum_mapping_traits := fun _ => enum_mapping_traits_PermissionTag |}.

End enum_flag_bits_cast_cpp.

(** * Properties of the converters *)

(** ** Auxiliary facts *)

(** *** Ranges of integral types *)

Module IntegralFacts.

Import Integral.

Lemma half_pos T : 0 < half T.
Proof. unfold half. apply Z.pow_pos_nonneg; lia. Qed.

Lemma modulus_half T : modulus T = 2 * half T.
Proof.
  unfold modulus, half.
  replace (Z.pos (bits T)) with (Z.succ (Z.pos (bits T) - 1)) at 1 by lia.
  apply Z.pow_succ_r. lia.
Qed.

Lemma wrap_in_range T z : in_range T (wrap T z).
Proof.
  pose proof (half_pos T) as Hh. pose proof (modulus_half T) as Hm.
  unfold in_range, wrap, min_value, max_value.
  destruct (is_signed T);
    pose proof (Z.mod_pos_bound z (modulus T));
    pose proof (Z.mod_pos_bound (z + half T) (modulus T)); lia.
Qed.

Lemma wrap_id T z : in_range T z -> wrap T z = z.
Proof.
  pose proof (half_pos T) as Hh. pose proof (modulus_half T) as Hm.
  unfold in_range, wrap, min_value, max_value.
  destruct (is_signed T); intros Hz; rewrite Z.mod_small; lia.
Qed.

Lemma in_range_0 T : in_range T 0.
Proof.
  pose proof (half_pos T) as Hh. pose proof (modulus_half T) as Hm.
  unfold in_range, min_value, max_value.
  destruct (is_signed T); lia.
Qed.

Lemma wrap_0 T : wrap T 0 = 0.
Proof. apply wrap_id, in_range_0. Qed.

(** Bit operations stay below a power of two. *)

Lemma land_below n p q :
  0 <= n -> 0 <= p < 2 ^ n -> 0 <= Z.land p q < 2 ^ n.
Proof.
  intros Hn Hp.
  assert (Hpq : Z.land p q = Z.land p q mod 2 ^ n).
  { rewrite <- (Z.land_ones _ n) by exact Hn.
    rewrite <- Z.land_assoc, (Z.land_comm q), Z.land_assoc.
    rewrite (Z.land_ones p n) by exact Hn.
    rewrite (Z.mod_small p) by exact Hp. reflexivity. }
  rewrite Hpq. apply Z.mod_pos_bound. apply Z.pow_pos_nonneg; lia.
Qed.

Lemma lor_below n p q :
  0 <= n -> 0 <= p < 2 ^ n -> 0 <= q < 2 ^ n -> 0 <= Z.lor p q < 2 ^ n.
Proof.
  intros Hn Hp Hq.
  assert (Hpq : Z.lor p q = Z.lor p q mod 2 ^ n).
  { rewrite <- (Z.land_ones _ n) by exact Hn.
    rewrite Z.land_lor_distr_l, !Z.land_ones by exact Hn.
    rewrite (Z.mod_small p), (Z.mod_small q) by assumption. reflexivity. }
  rewrite Hpq. apply Z.mod_pos_bound. apply Z.pow_pos_nonneg; lia.
Qed.

Lemma lor_in_range T a b :
  in_range T a -> in_range T b -> in_range T (Z.lor a b).
Proof.
  pose proof (half_pos T) as Hh.
  unfold in_range, min_value, max_value.
  destruct (is_signed T); intros Ha Hb.
  - assert (Hn : 0 <= Z.pos (bits T) - 1) by lia.
    fold (half T) in *.
    destruct (Z.neg_nonneg_cases a) as [Na | Pa].
    + (* a < 0: complement into the non-negative half *)
      pose proof (land_below _ (Z.lnot a) (Z.lnot b) Hn) as H.
      rewrite <- Z.lnot_lor in H. unfold Z.lnot, half in *.
      lia.
    + destruct (Z.neg_nonneg_cases b) as [Nb | Pb].
      * pose proof (land_below _ (Z.lnot b) (Z.lnot a) Hn) as H.
        rewrite <- Z.lnot_lor, Z.lor_comm in H. unfold Z.lnot, half in *.
        lia.
      * pose proof (lor_below _ a b Hn) as H. unfold half in *. lia.
  - pose proof (lor_below (Z.pos (bits T)) a b) as H.
    unfold modulus in *. lia.
Qed.

End IntegralFacts.

Lemma to_bool_false_iff z : to_bool z = false <-> z = 0.
Proof.
  unfold to_bool. destruct (Z.eqb_spec z 0); simpl; split; congruence.
Qed.

Lemma to_bool_land_lor s a b :
  to_bool (Z.land s (Z.lor a b))
  = to_bool (Z.land s a) || to_bool (Z.land s b).
Proof.
  rewrite Z.land_lor_distr_r.
  destruct (to_bool (Z.land s a)) eqn:Ha, (to_bool (Z.land s b)) eqn:Hb;
    simpl.
  1-3: destruct (to_bool (Z.lor _ _)) eqn:Hab; [reflexivity|];
       apply to_bool_false_iff, Z.lor_eq_0_iff in Hab; destruct Hab as [Za Zb];
       rewrite <- to_bool_false_iff in Za, Zb; congruence.
  apply to_bool_false_iff. apply to_bool_false_iff in Ha, Hb.
  rewrite Ha, Hb. reflexivity.
Qed.

Ltac bitwise :=
  apply Z.bits_inj'; intros ? _;
  repeat rewrite Z.lor_spec;
  repeat match goal with
         | |- context [Z.testbit ?x ?n] =>
             is_var x; destruct (Z.testbit x n)
         | |- context [Z.testbit ?x ?n] =>
             let b := fresh "b" in
             generalize (Z.testbit x n); intro b; destruct b
         end;
  reflexivity.

Lemma lor_lor_distr g a b :
  Z.lor g (Z.lor a b) = Z.lor (Z.lor g a) (Z.lor g b).
Proof. bitwise. Qed.

Section Facts.

Variable R : registry.

Lemma is_same_v_true (a b : Tag R) : a = b -> is_same_v R a b = true.
Proof. unfold is_same_v. destruct (Tag_eq_dec R a b); congruence. Qed.

Lemma is_same_v_false (a b : Tag R) : a <> b -> is_same_v R a b = false.
Proof. unfold is_same_v. destruct (Tag_eq_dec R a b); congruence. Qed.

Lemma static_cast_0 (Enum : EnumT R) : static_cast R Enum 0 = 0.
Proof. apply IntegralFacts.wrap_0. Qed.

Lemma static_cast_id (Enum : EnumT R) z :
  Integral.in_range (underlying_type_t R Enum) z -> static_cast R Enum z = z.
Proof. apply IntegralFacts.wrap_id. Qed.

Lemma operator_or_lor (Enum : EnumT R) a b :
  Integral.in_range (underlying_type_t R Enum) a ->
  Integral.in_range (underlying_type_t R Enum) b ->
  operator_or R Enum a b = Z.lor a b.
Proof.
  intros Ha Hb. unfold operator_or. cbv zeta.
  rewrite !IntegralFacts.wrap_id by assumption.
  apply static_cast_id. apply IntegralFacts.lor_in_range; assumption.
Qed.

(** *** What the instantiations are, inside one category *)

Section Instantiated.

Variable c : Tag R.
Variables Dst Src : EnumT R.
Variables get_Src get_Dst : mapping_type (enum_mapping_traits R c) -> Z.
Hypothesis category_Src : enum_category_t R Src = c.
Hypothesis category_Dst : enum_category_t R Dst = c.
Hypothesis member_Src : std_get (enum_mapping_traits R c) Src = Some get_Src.
Hypothesis member_Dst : std_get (enum_mapping_traits R c) Dst = Some get_Dst.
Hypothesis unscoped_Src : is_scoped_enum_v R Src = false.

Lemma enum_cast_built :
  enum_cast R Dst Src
  = Built (fun src =>
      enum_cast_scan R Dst get_Src get_Dst
        (mappings (enum_mapping_traits R c)) src).
Proof.
  subst c. unfold enum_cast, static_assert.
  rewrite is_same_v_true by (symmetry; exact category_Dst).
  cbv zeta. rewrite member_Src, member_Dst. reflexivity.
Qed.

Lemma enum_flag_bits_cast_built :
  enum_flag_bits_cast R Dst Src
  = Built (fun indeterminate src =>
      static_cast R Dst
        (enum_flag_bits_loop R Dst get_Src get_Dst
           (mappings (enum_mapping_traits R c)) src indeterminate)).
Proof.
  subst c. unfold enum_flag_bits_cast, static_assert.
  rewrite is_same_v_true by (symmetry; exact category_Dst).
  cbv zeta. rewrite member_Src, member_Dst, unscoped_Src. reflexivity.
Qed.

End Instantiated.

(** *** The scan of [enum_cast] *)

Section Scan.

Context {M : Type}.
Variable Dst : EnumT R.
Variables get_Src get_Dst : M -> Z.

Lemma enum_cast_scan_miss table v :
  (forall m, In m table -> get_Src m <> v) ->
  enum_cast_scan R Dst get_Src get_Dst table v = static_cast R Dst 0.
Proof.
  induction table as [| m rest IH]; intros Hmiss; simpl.
  - reflexivity.
  - destruct (Z.eqb_spec (get_Src m) v) as [Heq | _].
    + exfalso. apply (Hmiss m); [left; reflexivity | exact Heq].
    + apply IH. intros m' Hin. apply Hmiss. right. exact Hin.
Qed.

Lemma enum_cast_scan_first before entry after v :
  (forall m, In m before -> get_Src m <> v) ->
  get_Src entry = v ->
  enum_cast_scan R Dst get_Src get_Dst (before ++ entry :: after) v
  = get_Dst entry.
Proof.
  induction before as [| m rest IH]; intros Hmiss Hhit; simpl.
  - rewrite (proj2 (Z.eqb_eq _ _) Hhit). reflexivity.
  - destruct (Z.eqb_spec (get_Src m) v) as [Heq | _].
    + exfalso. apply (Hmiss m); [left; reflexivity | exact Heq].
    + apply IH; [| exact Hhit].
      intros m' Hin. apply Hmiss. right. exact Hin.
Qed.

(** A value that occurs in the source slot is answered by an
    entry of the table holding it. *)
Lemma enum_cast_scan_found table v :
  (exists e, In e table /\ get_Src e = v) ->
  exists e, In e table /\ get_Src e = v /\
            enum_cast_scan R Dst get_Src get_Dst table v = get_Dst e.
Proof.
  induction table as [| m rest IH]; intros (e & Hin & He).
  - destruct Hin.
  - simpl. destruct (Z.eqb_spec (get_Src m) v) as [Heq | Hne].
    + exists m. repeat split; [left; reflexivity | exact Heq].
    + destruct Hin as [-> | Hin]; [contradiction |].
      destruct IH as (e0 & Hin0 & He0 & Hscan).
      { exists e. split; assumption. }
      exists e0. repeat split; [right; exact Hin0 | exact He0 | exact Hscan].
Qed.

End Scan.

End Facts.

(** *** The loop of [enum_flag_bits_cast] *)

Section Loop.

Variable R : registry.
Context {M : Type}.
Variable Dst : EnumT R.
Variables get_Src get_Dst : M -> Z.

Local Abbreviation loop := (enum_flag_bits_loop R Dst get_Src get_Dst).
Local Abbreviation union := (or_of_matching get_Src get_Dst).
Local Abbreviation fits := (Integral.in_range (underlying_type_t R Dst)).

Lemma enum_flag_bits_loop_app l1 l2 v dst :
  loop (l1 ++ l2) v dst = loop l2 v (loop l1 v dst).
Proof.
  revert dst. induction l1 as [| m rest IH]; intros dst; simpl.
  - reflexivity.
  - apply IH.
Qed.

Lemma enum_flag_bits_loop_skip l1 e l2 v dst :
  get_Src e = 0 ->
  loop (l1 ++ e :: l2) v dst = loop (l1 ++ l2) v dst.
Proof.
  intros He. rewrite !enum_flag_bits_loop_app. simpl.
  rewrite He, Z.land_0_l. reflexivity.
Qed.

Lemma or_of_matching_cons m rest v :
  union (m :: rest) v
  = if to_bool (Z.land (get_Src m) v)
    then Z.lor (get_Dst m) (union rest v)
    else union rest v.
Proof.
  unfold or_of_matching. simpl.
  destruct (to_bool (Z.land (get_Src m) v)); reflexivity.
Qed.

Lemma or_of_matching_in_range table v :
  (forall m, In m table -> fits (get_Dst m)) -> fits (union table v).
Proof.
  induction table as [| m rest IH]; intros Hfit.
  - apply IntegralFacts.in_range_0.
  - rewrite or_of_matching_cons.
    assert (fits (union rest v)) as Hrest
      by (apply IH; intros m' Hin; apply Hfit; right; exact Hin).
    destruct (to_bool _); [| exact Hrest].
    apply IntegralFacts.lor_in_range; [| exact Hrest].
    apply Hfit. left. reflexivity.
Qed.

(** The loop ORs the matching destination slots into whatever the
    accumulator held on entry. *)
Lemma enum_flag_bits_loop_or table v dst :
  fits dst ->
  (forall m, In m table -> fits (get_Dst m)) ->
  loop table v dst = Z.lor dst (union table v).
Proof.
  revert dst. induction table as [| m rest IH]; intros dst Hdst Hfit.
  - simpl. unfold or_of_matching. simpl. rewrite Z.lor_0_r. reflexivity.
  - assert (fits (get_Dst m)) as Hm by (apply Hfit; left; reflexivity).
    assert (forall m', In m' rest -> fits (get_Dst m')) as Hrest
      by (intros m' Hin; apply Hfit; right; exact Hin).
    simpl. rewrite or_of_matching_cons.
    destruct (to_bool (Z.land (get_Src m) v)).
    + rewrite (IntegralFacts.wrap_id _ (get_Dst m)) by exact Hm.
      rewrite IntegralFacts.wrap_id
        by (apply IntegralFacts.lor_in_range; assumption).
      rewrite IH by (try apply IntegralFacts.lor_in_range; assumption).
      symmetry. apply Z.lor_assoc.
    + apply IH; assumption.
Qed.

(** The union of the matching slots distributes over the OR of two
    source values, whatever the table. *)
Lemma or_of_matching_lor table a b :
  union table (Z.lor a b) = Z.lor (union table a) (union table b).
Proof.
  induction table as [| m rest IH].
  - reflexivity.
  - rewrite !or_of_matching_cons, to_bool_land_lor, IH.
    destruct (to_bool (Z.land (get_Src m) a)),
             (to_bool (Z.land (get_Src m) b)); simpl.
    + apply lor_lor_distr.
    + rewrite !Z.lor_assoc. reflexivity.
    + rewrite !Z.lor_assoc.
      rewrite (Z.lor_comm (get_Dst m)). reflexivity.
    + reflexivity.
Qed.

End Loop.


(** ** The scalar converter *)

(** C1.  Inside one category, [enum_cast<Dst>(v)] scans the table of
    the category in declared order and returns the [Dst] slot of the
    first entry whose [Src] slot equals [v]: when the table is
    [before ++ entry :: after], no entry of [before] holds [v] in its
    [Src] slot and [entry] does, the result is the [Dst] slot of
    [entry]. *)
Theorem enum_cast_first_match
    (R : registry) (Dst Src : EnumT R)
    (get_Src get_Dst :
       mapping_type (enum_mapping_traits R (enum_category_t R Src)) -> Z)
    (before after : list _) (entry : _) (v : Z) :
  enum_category_t R Src = enum_category_t R Dst ->
  std_get (enum_mapping_traits R (enum_category_t R Src)) Src
    = Some get_Src ->
  std_get (enum_mapping_traits R (enum_category_t R Src)) Dst
    = Some get_Dst ->
  mappings (enum_mapping_traits R (enum_category_t R Src))
    = before ++ entry :: after ->
  (forall m, In m before -> get_Src m <> v) ->
  get_Src entry = v ->
  call (enum_cast R Dst Src) v = Built (get_Dst entry).
Proof.
  intros Hcat Hsrc Hdst Htable Hbefore Hentry.
  rewrite (enum_cast_built R _ Dst Src get_Src get_Dst eq_refl
             (eq_sym Hcat) Hsrc Hdst).
  simpl. rewrite Htable.
  rewrite enum_cast_scan_first by assumption. reflexivity.
Qed.

Lemma enum_cast_first_match_witness :
  call (enum_cast enum_cast_cpp.declarations
          enum_cast_cpp.lib_a_Color enum_cast_cpp.lib_c_Color)
       enum_cast_cpp.lib_c.Color.Green
  = Built enum_cast_cpp.lib_a.Color.Green.
Proof.
  apply (enum_cast_first_match enum_cast_cpp.declarations
           enum_cast_cpp.lib_a_Color enum_cast_cpp.lib_c_Color
           enum_cast_cpp.get_2 enum_cast_cpp.get_0
           [(3, 0, 9)] [(5, 2, 101)] (4, 1, 100)).
  - reflexivity.
  - reflexivity.
  - reflexivity.
  - reflexivity.
  - intros m [<- | []]. discriminate.
  - reflexivity.
Defined.

(** C2.  A source value that occurs in the [Src] slot of no entry is
    converted to a raw 0 cast into [Dst], the zero-valued member of
    the destination type; the call returns normally. *)
Theorem enum_cast_miss_returns_zero
    (R : registry) (Dst Src : EnumT R)
    (get_Src get_Dst :
       mapping_type (enum_mapping_traits R (enum_category_t R Src)) -> Z)
    (v : Z) :
  enum_category_t R Src = enum_category_t R Dst ->
  std_get (enum_mapping_traits R (enum_category_t R Src)) Src
    = Some get_Src ->
  std_get (enum_mapping_traits R (enum_category_t R Src)) Dst
    = Some get_Dst ->
  (forall m,
      In m (mappings (enum_mapping_traits R (enum_category_t R Src))) ->
      get_Src m <> v) ->
  call (enum_cast R Dst Src) v = Built (static_cast R Dst 0)
  /\ static_cast R Dst 0 = 0.
Proof.
  intros Hcat Hsrc Hdst Hmiss. split.
  - rewrite (enum_cast_built R _ Dst Src get_Src get_Dst eq_refl
               (eq_sym Hcat) Hsrc Hdst).
    simpl. rewrite enum_cast_scan_miss by exact Hmiss. reflexivity.
  - apply static_cast_0.
Qed.

Lemma enum_cast_miss_returns_zero_witness :
  call (enum_cast enum_cast_cpp.declarations
          enum_cast_cpp.lib_b_Color enum_cast_cpp.lib_a_Color) 42
  = Built (static_cast enum_cast_cpp.declarations enum_cast_cpp.lib_b_Color 0)
  /\ static_cast enum_cast_cpp.declarations enum_cast_cpp.lib_b_Color 0 = 0.
Proof.
  apply (enum_cast_miss_returns_zero enum_cast_cpp.declarations
           enum_cast_cpp.lib_b_Color enum_cast_cpp.lib_a_Color
           enum_cast_cpp.get_0 enum_cast_cpp.get_1 42).
  - reflexivity.
  - reflexivity.
  - reflexivity.
  - intros m [<- | [<- | [<- | []]]]; discriminate.
Defined.

(** C5.  Round trip.  For member types [A] and [B] of one category
    and a value [v] found in the [A] slot of some entry, if the table
    pairs [v] one to one with its [B] partner then converting [v] to
    [B] and back to [A] gives [v] again. *)
Theorem enum_cast_round_trip
    (R : registry) (A B : EnumT R)
    (get_A get_B :
       mapping_type (enum_mapping_traits R (enum_category_t R A)) -> Z)
    (v : Z) :
  enum_category_t R A = enum_category_t R B ->
  std_get (enum_mapping_traits R (enum_category_t R A)) A = Some get_A ->
  std_get (enum_mapping_traits R (enum_category_t R A)) B = Some get_B ->
  (exists e,
      In e (mappings (enum_mapping_traits R (enum_category_t R A)))
      /\ get_A e = v) ->
  bijection_on get_A get_B
    (mappings (enum_mapping_traits R (enum_category_t R A))) v ->
  exists w,
    call (enum_cast R B A) v = Built w
    /\ call (enum_cast R A B) w = Built v.
Proof.
  intros Hcat HA HB Hv Hbij.
  rewrite (enum_cast_built R _ B A get_A get_B eq_refl (eq_sym Hcat) HA HB).
  rewrite (enum_cast_built R _ A B get_B get_A (eq_sym Hcat) eq_refl HB HA).
  simpl.
  destruct (enum_cast_scan_found R B get_A get_B _ v Hv)
    as (e & He_in & He_v & Hforth).
  exists (get_B e). split; [rewrite Hforth; reflexivity |].
  destruct (enum_cast_scan_found R A get_B get_A
              (mappings (enum_mapping_traits R (enum_category_t R A)))
              (get_B e))
    as (e' & He'_in & He'_w & Hback).
  { exists e. split; [exact He_in | reflexivity]. }
  rewrite Hback. f_equal.
  apply (Hbij e e' He_in He'_in He_v). exact He'_w.
Qed.

Lemma enum_cast_round_trip_witness :
  exists w,
    call (enum_cast enum_cast_cpp.declarations
            enum_cast_cpp.lib_a_Color enum_cast_cpp.lib_c_Color)
         enum_cast_cpp.lib_c.Color.Blue = Built w
    /\ call (enum_cast enum_cast_cpp.declarations
               enum_cast_cpp.lib_c_Color enum_cast_cpp.lib_a_Color) w
       = Built enum_cast_cpp.lib_c.Color.Blue.
Proof.
  apply (enum_cast_round_trip enum_cast_cpp.declarations
           enum_cast_cpp.lib_c_Color enum_cast_cpp.lib_a_Color
           enum_cast_cpp.get_2 enum_cast_cpp.get_0 101).
  - reflexivity.
  - reflexivity.
  - reflexivity.
  - exists (5, 2, 101). split; [right; right; left |]; reflexivity.
  - intros e e' [<- | [<- | [<- | []]]] [<- | [<- | [<- | []]]] Hv;
      try discriminate Hv; split; intros H; try reflexivity;
      discriminate H.
Defined.

(** C7.  The Color scenario: with the declared Color table,
    [enum_cast<lib_a::Color>(lib_c::Color::Red)] is [lib_a::Color::Red]
    and [enum_cast<lib_b::Color>(lib_a::Color::Red)] is
    [lib_b::Color::Red]. *)
Theorem color_scenario :
  mappings enum_cast_cpp.enum_mapping_traits_EnumColorTag
  = [ (3, 0, 9); (4, 1, 100); (5, 2, 101) ]
  /\ call (enum_cast enum_cast_cpp.declarations
             enum_cast_cpp.lib_a_Color enum_cast_cpp.lib_c_Color)
          enum_cast_cpp.lib_c.Color.Red
     = Built enum_cast_cpp.lib_a.Color.Red
  /\ call (enum_cast enum_cast_cpp.declarations
             enum_cast_cpp.lib_b_Color enum_cast_cpp.lib_a_Color)
          enum_cast_cpp.lib_a.Color.Red
     = Built enum_cast_cpp.lib_b.Color.Red.
Proof. repeat split. Qed.

(** ** The compile-time category check *)

(** C8.  For enum types of different categories both converters are
    rejected while they are instantiated, by the static assertion and
    with its message; no function is produced, so no such call is
    ever run. *)
Theorem category_mismatch_is_a_build_failure
    (R : registry) (Dst Src : EnumT R) :
  enum_category_t R Dst <> enum_category_t R Src ->
  (enum_cast R Dst Src
   = static_assert_failed
       "Source and destination enums must be of the same category"
   /\ forall f, enum_cast R Dst Src <> Built f)
  /\
  (enum_flag_bits_cast R Dst Src
   = static_assert_failed
       "Source and destination enums must be of the same category"
   /\ forall f, enum_flag_bits_cast R Dst Src <> Built f).
Proof.
  intros Hcat.
  assert (is_same_v R (enum_category_t R Src) (enum_category_t R Dst) = false)
    as Hsame by (apply is_same_v_false; congruence).
  unfold enum_cast, enum_flag_bits_cast, static_assert.
  rewrite Hsame. repeat split; intros f; discriminate.
Qed.

Lemma category_mismatch_is_a_build_failure_witness :
  (enum_cast enum_cast_cpp.declarations
     enum_cast_cpp.lib_b_Color enum_cast_cpp.lib_a_Shape
   = static_assert_failed
       "Source and destination enums must be of the same category"
   /\ forall f,
        enum_cast enum_cast_cpp.declarations
          enum_cast_cpp.lib_b_Color enum_cast_cpp.lib_a_Shape <> Built f)
  /\
  (enum_flag_bits_cast enum_cast_cpp.declarations
     enum_cast_cpp.lib_b_Color enum_cast_cpp.lib_a_Shape
   = static_assert_failed
       "Source and destination enums must be of the same category"
   /\ forall f,
        enum_flag_bits_cast enum_cast_cpp.declarations
          enum_cast_cpp.lib_b_Color enum_cast_cpp.lib_a_Shape <> Built f).
Proof.
  apply (category_mismatch_is_a_build_failure enum_cast_cpp.declarations
           enum_cast_cpp.lib_b_Color enum_cast_cpp.lib_a_Shape).
  simpl. discriminate.
Defined.

(** ** The enum-typed bitwise OR *)

(** C9.  For values [a] and [b] of an enum type, [a | b] is the value
    of that type whose underlying representation is the bitwise OR of
    the underlying representations of [a] and [b]. *)
Theorem operator_or_is_underlying_or
    (R : registry) (Enum : EnumT R) (a b : Z) :
  Integral.in_range (underlying_type_t R Enum) a ->
  Integral.in_range (underlying_type_t R Enum) b ->
  operator_or R Enum a b = Z.lor a b
  /\ Integral.in_range (underlying_type_t R Enum) (operator_or R Enum a b).
Proof.
  intros Ha Hb.
  split; rewrite operator_or_lor by assumption.
  - reflexivity.
  - apply IntegralFacts.lor_in_range; assumption.
Qed.

Lemma operator_or_is_underlying_or_witness :
  operator_or enum_flag_bits_cast_cpp.declarations
    enum_flag_bits_cast_cpp.lib_b_Permission
    enum_flag_bits_cast_cpp.lib_b.Permission.READ
    enum_flag_bits_cast_cpp.lib_b.Permission.WRITE
  = Z.lor enum_flag_bits_cast_cpp.lib_b.Permission.READ
          enum_flag_bits_cast_cpp.lib_b.Permission.WRITE
  /\ Integral.in_range
       (underlying_type_t enum_flag_bits_cast_cpp.declarations
          enum_flag_bits_cast_cpp.lib_b_Permission)
       (operator_or enum_flag_bits_cast_cpp.declarations
          enum_flag_bits_cast_cpp.lib_b_Permission
          enum_flag_bits_cast_cpp.lib_b.Permission.READ
          enum_flag_bits_cast_cpp.lib_b.Permission.WRITE).
Proof.
  apply (operator_or_is_underlying_or enum_flag_bits_cast_cpp.declarations
           enum_flag_bits_cast_cpp.lib_b_Permission).
  - vm_compute. split; discriminate.
  - vm_compute. split; discriminate.
Defined.

(** ** The flag-bits converter *)

Section FlagBits.

Variable R : registry.
Variables Dst Src : EnumT R.

Local Abbreviation T := (enum_mapping_traits R (enum_category_t R Src)).

Variables get_Src get_Dst : mapping_type T -> Z.
Hypothesis same_category : enum_category_t R Src = enum_category_t R Dst.
Hypothesis member_Src : std_get T Src = Some get_Src.
Hypothesis member_Dst : std_get T Dst = Some get_Dst.
Hypothesis unscoped_Src : is_scoped_enum_v R Src = false.

(** The instantiation over a replaced table. *)
Lemma enum_flag_bits_cast_with_mappings table :
  enum_flag_bits_cast (with_mappings R (enum_category_t R Src) table) Dst Src
  = Built (fun indeterminate src =>
      static_cast R Dst
        (enum_flag_bits_loop R Dst get_Src get_Dst table src indeterminate)).
Proof.
  unfold enum_flag_bits_cast, static_assert, is_same_v. simpl.
  destruct (Tag_eq_dec R (enum_category_t R Src) (enum_category_t R Dst))
    as [_ | Hne]; [| congruence].
  destruct (Tag_eq_dec R (enum_category_t R Src) (enum_category_t R Src))
    as [_ | Hne]; [| congruence].
  simpl. rewrite member_Src, member_Dst, unscoped_Src. reflexivity.
Qed.

(** An entry whose source slot is zero can be deleted from the table
    without changing any result. *)
Lemma zero_source_slot_skipped before entry after indeterminate v :
  mappings T = before ++ entry :: after ->
  get_Src entry = 0 ->
  exists r,
    call2 (enum_flag_bits_cast R Dst Src) indeterminate v = Built r
    /\ call2 (enum_flag_bits_cast
                (with_mappings R (enum_category_t R Src) (before ++ after))
                Dst Src) indeterminate v = Built r.
Proof.
  intros Htable Hzero.
  rewrite (enum_flag_bits_cast_built R _ Dst Src get_Src get_Dst eq_refl
             (eq_sym same_category) member_Src member_Dst unscoped_Src).
  rewrite enum_flag_bits_cast_with_mappings.
  unfold call2, call. rewrite Htable.
  rewrite enum_flag_bits_loop_skip by exact Hzero.
  eexists. split; reflexivity.
Qed.

Hypothesis table_well_typed : well_typed R T.

(** What the converter computes: the matching destination slots are
    ORed into the indeterminate initial content of the accumulator. *)
Lemma enum_flag_bits_cast_accumulates indeterminate v :
  Integral.in_range (underlying_type_t R Dst) indeterminate ->
  call2 (enum_flag_bits_cast R Dst Src) indeterminate v
  = Built (Z.lor indeterminate
             (or_of_matching get_Src get_Dst (mappings T) v)).
Proof.
  intros Hfit.
  assert (forall m, In m (mappings T) ->
            Integral.in_range (underlying_type_t R Dst) (get_Dst m))
    as Hslots by (intros m Hin; exact (table_well_typed _ _ _ member_Dst Hin)).
  rewrite (enum_flag_bits_cast_built R _ Dst Src get_Src get_Dst eq_refl
             (eq_sym same_category) member_Src member_Dst unscoped_Src).
  unfold call2, call. f_equal.
  rewrite enum_flag_bits_loop_or by assumption.
  apply static_cast_id. apply IntegralFacts.lor_in_range; [exact Hfit |].
  apply or_of_matching_in_range. exact Hslots.
Qed.

(** When the three calls find the same content in their accumulators,
    zero in particular, converting [a | b] gives the OR of the
    conversions of [a] and of [b]. *)
Lemma flag_union_from_equal_accumulators indeterminate a b :
  Integral.in_range (underlying_type_t R Dst) indeterminate ->
  Integral.in_range (underlying_type_t R Src) a ->
  Integral.in_range (underlying_type_t R Src) b ->
  exists ra rb,
    call2 (enum_flag_bits_cast R Dst Src) indeterminate a = Built ra
    /\ call2 (enum_flag_bits_cast R Dst Src) indeterminate b = Built rb
    /\ call2 (enum_flag_bits_cast R Dst Src) indeterminate
         (operator_or R Src a b)
       = Built (operator_or R Dst ra rb).
Proof.
  intros Hfit Ha Hb.
  assert (forall v,
            Integral.in_range (underlying_type_t R Dst)
              (Z.lor indeterminate
                 (or_of_matching get_Src get_Dst (mappings T) v)))
    as Hres.
  { intros v. apply IntegralFacts.lor_in_range; [exact Hfit |].
    apply or_of_matching_in_range. intros m Hin.
    exact (table_well_typed _ _ _ member_Dst Hin). }
  do 2 eexists. rewrite !enum_flag_bits_cast_accumulates by exact Hfit.
  repeat split. f_equal.
  rewrite !operator_or_lor by (try apply Hres; assumption).
  rewrite or_of_matching_lor. apply lor_lor_distr.
Qed.

End FlagBits.

(** C10.  An entry whose [Src] slot is zero fails the AND test for
    every input and contributes nothing: wherever the converter is
    instantiated ([Src] is an unscoped enumeration, so that line 58
    has its built-in [&]), the conversion gives the result it gives on
    the table without that entry.  In particular the entry
    [(lib_a::None, lib_b::NONE)] of the Permission table is inert in
    both directions and for every input, zero included. *)
Theorem zero_source_slot_is_inert :
  (forall (R : registry) (Dst Src : EnumT R)
          (get_Src get_Dst :
             mapping_type (enum_mapping_traits R (enum_category_t R Src)) -> Z)
          (before after : list _) (entry : _) (indeterminate v : Z),
      enum_category_t R Src = enum_category_t R Dst ->
      std_get (enum_mapping_traits R (enum_category_t R Src)) Src
        = Some get_Src ->
      std_get (enum_mapping_traits R (enum_category_t R Src)) Dst
        = Some get_Dst ->
      is_scoped_enum_v R Src = false ->
      mappings (enum_mapping_traits R (enum_category_t R Src))
        = before ++ entry :: after ->
      get_Src entry = 0 ->
      to_bool (Z.land (get_Src entry) v) = false
      /\ exists r,
           call2 (enum_flag_bits_cast R Dst Src) indeterminate v = Built r
           /\ call2 (enum_flag_bits_cast
                       (with_mappings R (enum_category_t R Src)
                          (before ++ after))
                       Dst Src) indeterminate v = Built r)
  /\
  (forall (Dst Src : enum_flag_bits_cast_cpp.enum_type)
          (indeterminate v : Z),
      exists r,
        call2 (enum_flag_bits_cast enum_flag_bits_cast_cpp.declarations
                 Dst Src) indeterminate v = Built r
        /\ call2 (enum_flag_bits_cast
                    (with_mappings enum_flag_bits_cast_cpp.declarations
                       enum_flag_bits_cast_cpp.PermissionTag
                       [ (enum_flag_bits_cast_cpp.lib_a.Permission.Read,
                          enum_flag_bits_cast_cpp.lib_b.Permission.READ);
                         (enum_flag_bits_cast_cpp.lib_a.Permission.Write,
                          enum_flag_bits_cast_cpp.lib_b.Permission.WRITE);
                         (enum_flag_bits_cast_cpp.lib_a.Permission.Execute,
                          enum_flag_bits_cast_cpp.lib_b.Permission.EXECUTE) ])
                    Dst Src) indeterminate v = Built r).
Proof.
  split.
  - intros R Dst Src get_Src get_Dst before after entry indeterminate v
           Hcat Hsrc Hdst Hunscoped Htable Hzero.
    split.
    + rewrite Hzero, Z.land_0_l. reflexivity.
    + exact (zero_source_slot_skipped R Dst Src get_Src get_Dst
               Hcat Hsrc Hdst Hunscoped before entry after indeterminate v
               Htable Hzero).
  - intros Dst Src indeterminate v.
    pose (R := enum_flag_bits_cast_cpp.declarations).
    destruct Dst as [|], Src as [|];
      match goal with
      | |- context [enum_flag_bits_cast _ ?D ?S] =>
          refine (zero_source_slot_skipped R D S _ _ eq_refl eq_refl eq_refl
                    eq_refl [] (0, 0) _ indeterminate v eq_refl eq_refl)
      end.
Qed.

(** The witness takes a table in which the entry with the zero source
    slot has a non-zero destination slot, [(lib_a::Execute, 0)], and
    an input that fires the other two entries: were the entry to
    fire, the two results would differ in the [Execute] bit. *)
Lemma zero_source_slot_is_inert_witness :
  to_bool (Z.land 0 12) = false
  /\ exists r,
       call2 (enum_flag_bits_cast
                (with_mappings enum_flag_bits_cast_cpp.declarations
                   enum_flag_bits_cast_cpp.PermissionTag
                   [(1, 4); (4, 0); (2, 8)])
                enum_flag_bits_cast_cpp.lib_a_Permission
                enum_flag_bits_cast_cpp.lib_b_Permission) 0 12 = Built r
       /\ call2 (enum_flag_bits_cast
                   (with_mappings
                      (with_mappings enum_flag_bits_cast_cpp.declarations
                         enum_flag_bits_cast_cpp.PermissionTag
                         [(1, 4); (4, 0); (2, 8)])
                      enum_flag_bits_cast_cpp.PermissionTag
                      ([(1, 4)] ++ [(2, 8)]))
                   enum_flag_bits_cast_cpp.lib_a_Permission
                   enum_flag_bits_cast_cpp.lib_b_Permission) 0 12 = Built r.
Proof.
  apply (proj1 zero_source_slot_is_inert
           (with_mappings enum_flag_bits_cast_cpp.declarations
              enum_flag_bits_cast_cpp.PermissionTag
              [(1, 4); (4, 0); (2, 8)])
           enum_flag_bits_cast_cpp.lib_a_Permission
           enum_flag_bits_cast_cpp.lib_b_Permission
           enum_flag_bits_cast_cpp.get_1 enum_flag_bits_cast_cpp.get_0
           [(1, 4)] [(2, 8)] (4, 0) 0 12).
  - reflexivity.
  - reflexivity.
  - reflexivity.
  - reflexivity.
  - reflexivity.
  - reflexivity.
Defined.

(** ** The accumulator of the flag-bits converter

    The three statements below evaluate [enum_flag_bits_cast] on the
    Permission table when the storage of the uninitialised [dst] holds
    a non-zero value. *)

(** C3.  The accumulator is not zero-initialised: with [0x40] in the
    storage of [dst], [enum_flag_bits_cast<lib_a::Permission>] of
    [lib_b::READ | lib_b::WRITE] is [0x43] where the OR of the matching
    destination slots from a zero accumulator is [0x03], and the
    conversion of the zero value, which no source slot intersects, is
    [0x40] and not zero. *)
Theorem flag_accumulator_not_zero_initialised :
  call2 (enum_flag_bits_cast enum_flag_bits_cast_cpp.declarations
           enum_flag_bits_cast_cpp.lib_a_Permission
           enum_flag_bits_cast_cpp.lib_b_Permission)
        0x40
        (Z.lor enum_flag_bits_cast_cpp.lib_b.Permission.READ
               enum_flag_bits_cast_cpp.lib_b.Permission.WRITE)
  = Built 0x43
  /\ or_of_matching enum_flag_bits_cast_cpp.get_1 enum_flag_bits_cast_cpp.get_0
       (mappings enum_flag_bits_cast_cpp.enum_mapping_traits_PermissionTag)
       (Z.lor enum_flag_bits_cast_cpp.lib_b.Permission.READ
              enum_flag_bits_cast_cpp.lib_b.Permission.WRITE)
     = 0x03
  /\ call2 (enum_flag_bits_cast enum_flag_bits_cast_cpp.declarations
              enum_flag_bits_cast_cpp.lib_a_Permission
              enum_flag_bits_cast_cpp.lib_b_Permission)
           0x40 0
     = Built 0x40
  /\ or_of_matching enum_flag_bits_cast_cpp.get_1 enum_flag_bits_cast_cpp.get_0
       (mappings enum_flag_bits_cast_cpp.enum_mapping_traits_PermissionTag) 0
     = 0.
Proof. repeat split. Qed.

(** C4.  Two invocations of [enum_flag_bits_cast<lib_a::Permission>]
    on the same input [lib_b::READ | lib_b::WRITE], over the same
    table, differ when the storage of [dst] differs between them. *)
Theorem flag_result_depends_on_accumulator_storage :
  call2 (enum_flag_bits_cast enum_flag_bits_cast_cpp.declarations
           enum_flag_bits_cast_cpp.lib_a_Permission
           enum_flag_bits_cast_cpp.lib_b_Permission)
        0x00
        (Z.lor enum_flag_bits_cast_cpp.lib_b.Permission.READ
               enum_flag_bits_cast_cpp.lib_b.Permission.WRITE)
  <>
  call2 (enum_flag_bits_cast enum_flag_bits_cast_cpp.declarations
           enum_flag_bits_cast_cpp.lib_a_Permission
           enum_flag_bits_cast_cpp.lib_b_Permission)
        0x40
        (Z.lor enum_flag_bits_cast_cpp.lib_b.Permission.READ
               enum_flag_bits_cast_cpp.lib_b.Permission.WRITE).
Proof. vm_compute. discriminate. Qed.

(** C6.  Flag union at [lib_b::READ] and [lib_b::WRITE]: when the call
    on [READ] finds [0x40] in the storage of [dst] and the other two
    calls find zero, the conversion of [READ | WRITE] is [0x03] while
    the OR of the two separate conversions is [0x43]. *)
Theorem flag_union_broken_by_accumulator_storage :
  call2 (enum_flag_bits_cast enum_flag_bits_cast_cpp.declarations
           enum_flag_bits_cast_cpp.lib_a_Permission
           enum_flag_bits_cast_cpp.lib_b_Permission)
        0x00
        (operator_or enum_flag_bits_cast_cpp.declarations
           enum_flag_bits_cast_cpp.lib_b_Permission
           enum_flag_bits_cast_cpp.lib_b.Permission.READ
           enum_flag_bits_cast_cpp.lib_b.Permission.WRITE)
  = Built 0x03
  /\ call2 (enum_flag_bits_cast enum_flag_bits_cast_cpp.declarations
              enum_flag_bits_cast_cpp.lib_a_Permission
              enum_flag_bits_cast_cpp.lib_b_Permission)
           0x40 enum_flag_bits_cast_cpp.lib_b.Permission.READ
     = Built 0x41
  /\ call2 (enum_flag_bits_cast enum_flag_bits_cast_cpp.declarations
              enum_flag_bits_cast_cpp.lib_a_Permission
              enum_flag_bits_cast_cpp.lib_b_Permission)
           0x00 enum_flag_bits_cast_cpp.lib_b.Permission.WRITE
     = Built 0x02
  /\ operator_or enum_flag_bits_cast_cpp.declarations
       enum_flag_bits_cast_cpp.lib_a_Permission 0x41 0x02
     = 0x43.
Proof. repeat split. Qed.

(** * Further properties *)

(** ** The scalar converter, continued *)

Section ScanEntry.

Variable R : registry.
Context {M : Type}.
Variable get_Src : M -> Z.

(** The entry that answers [v] is the same whatever the destination
    slot is. *)
Lemma enum_cast_scan_entry table v :
  (exists e, In e table /\ get_Src e = v) ->
  exists e, In e table /\ get_Src e = v /\
    forall (Dst : EnumT R) (get_Dst : M -> Z),
      enum_cast_scan R Dst get_Src get_Dst table v = get_Dst e.
Proof.
  induction table as [| m rest IH]; intros (e & Hin & He).
  - destruct Hin.
  - destruct (Z.eqb_spec (get_Src m) v) as [Heq | Hne].
    + exists m. repeat split; [left; reflexivity | exact Heq |].
      intros Dst get_Dst. simpl.
      rewrite (proj2 (Z.eqb_eq _ _) Heq). reflexivity.
    + destruct Hin as [-> | Hin]; [contradiction |].
      destruct IH as (e0 & Hin0 & He0 & Hscan).
      { exists e. split; assumption. }
      exists e0. repeat split; [right; exact Hin0 | exact He0 |].
      intros Dst get_Dst. simpl.
      rewrite (proj2 (Z.eqb_neq _ _) Hne). apply Hscan.
Qed.

(** Either some entry holds [v] in its source slot or none does. *)
Lemma source_slot_dec table v :
  (exists e, In e table /\ get_Src e = v)
  \/ (forall m, In m table -> get_Src m <> v).
Proof.
  induction table as [| m rest [(e & Hin & He) | Hmiss]].
  - right. intros m [].
  - left. exists e. split; [right; exact Hin | exact He].
  - destruct (Z.eq_dec (get_Src m) v) as [Heq | Hne].
    + left. exists m. split; [left; reflexivity | exact Heq].
    + right. intros m' [<- | Hin]; [exact Hne | apply Hmiss; exact Hin].
Qed.

Lemma existsb_source_slot table v :
  existsb (fun e => get_Src e =? v) table = true
  <-> exists e, In e table /\ get_Src e = v.
Proof.
  rewrite existsb_exists. split; intros (e & Hin & He); exists e;
    (split; [exact Hin |]); apply Z.eqb_eq; exact He.
Qed.

End ScanEntry.

Lemma NoDup_map_injective {A B : Type} (f : A -> B) (l : list A) x y :
  NoDup (map f l) -> In x l -> In y l -> f x = f y -> x = y.
Proof.
  induction l as [| a l IH]; intros Hnd Hx Hy Hf; [destruct Hx |].
  simpl in Hnd. inversion Hnd as [| ? ? Hnotin Hnd']; subst.
  destruct Hx as [-> | Hx], Hy as [-> | Hy].
  - reflexivity.
  - exfalso. apply Hnotin. rewrite Hf. apply in_map. exact Hy.
  - exfalso. apply Hnotin. rewrite <- Hf. apply in_map. exact Hx.
  - apply IH; assumption.
Qed.

(** X1.  For a table whose tuples hold values of their element types,
    [enum_cast<Dst>(v)] returns, for every [v], a value of the
    underlying type of [Dst] that is either the [Dst] slot of an entry
    holding [v] in its [Src] slot or, when no entry holds [v], zero:
    the converter never produces a value of its own making. *)
Theorem enum_cast_result_from_table
    (R : registry) (Dst Src : EnumT R)
    (get_Src get_Dst :
       mapping_type (enum_mapping_traits R (enum_category_t R Src)) -> Z)
    (v : Z) :
  enum_category_t R Src = enum_category_t R Dst ->
  std_get (enum_mapping_traits R (enum_category_t R Src)) Src
    = Some get_Src ->
  std_get (enum_mapping_traits R (enum_category_t R Src)) Dst
    = Some get_Dst ->
  well_typed R (enum_mapping_traits R (enum_category_t R Src)) ->
  exists r,
    call (enum_cast R Dst Src) v = Built r
    /\ Integral.in_range (underlying_type_t R Dst) r
    /\ ((exists e,
           In e (mappings (enum_mapping_traits R (enum_category_t R Src)))
           /\ get_Src e = v /\ r = get_Dst e)
        \/ ((forall m,
               In m (mappings
                       (enum_mapping_traits R (enum_category_t R Src))) ->
               get_Src m <> v)
            /\ r = 0)).
Proof.
  intros Hcat Hsrc Hdst Htyped.
  rewrite (enum_cast_built R _ Dst Src get_Src get_Dst eq_refl
             (eq_sym Hcat) Hsrc Hdst).
  simpl. eexists. split; [reflexivity |].
  destruct (source_slot_dec get_Src
              (mappings (enum_mapping_traits R (enum_category_t R Src))) v)
    as [Hhit | Hmiss].
  - destruct (enum_cast_scan_entry R get_Src _ v Hhit)
      as (e & Hin & He & Hscan).
    rewrite Hscan. split.
    + exact (Htyped Dst get_Dst e Hdst Hin).
    + left. exists e. repeat split; assumption.
  - rewrite enum_cast_scan_miss by exact Hmiss.
    rewrite static_cast_0. split.
    + apply IntegralFacts.in_range_0.
    + right. split; [exact Hmiss | reflexivity].
Qed.

(** The declared tables hold values of their element types. *)
Lemma enum_cast_cpp_well_typed (c : enum_cast_cpp.tag) :
  well_typed enum_cast_cpp.declarations
    (enum_mapping_traits enum_cast_cpp.declarations c).
Proof.
  intros E get_E m Hget Hin.
  destruct c, E; simpl in Hget; try discriminate Hget;
    injection Hget as <-; simpl in Hin;
    destruct Hin as [<- | [<- | [<- | []]]];
    vm_compute; split; discriminate.
Qed.

Lemma enum_flag_bits_cast_cpp_well_typed (c : enum_flag_bits_cast_cpp.tag) :
  well_typed enum_flag_bits_cast_cpp.declarations
    (enum_mapping_traits enum_flag_bits_cast_cpp.declarations c).
Proof.
  intros E get_E m Hget Hin.
  destruct c, E; simpl in Hget; injection Hget as <-; simpl in Hin;
    destruct Hin as [<- | [<- | [<- | [<- | []]]]];
    vm_compute; split; discriminate.
Qed.

Lemma enum_cast_result_from_table_witness :
  exists r,
    call (enum_cast enum_cast_cpp.declarations
            enum_cast_cpp.lib_a_Shape enum_cast_cpp.lib_c_Shape) 3 = Built r
    /\ Integral.in_range Integral.int r
    /\ ((exists e,
           In e (mappings enum_cast_cpp.enum_mapping_traits_EnumShapeTag)
           /\ enum_cast_cpp.get_2 e = 3 /\ r = enum_cast_cpp.get_0 e)
        \/ ((forall m,
               In m (mappings enum_cast_cpp.enum_mapping_traits_EnumShapeTag)
               -> enum_cast_cpp.get_2 m <> 3)
            /\ r = 0)).
Proof.
  apply (enum_cast_result_from_table enum_cast_cpp.declarations
           enum_cast_cpp.lib_a_Shape enum_cast_cpp.lib_c_Shape
           enum_cast_cpp.get_2 enum_cast_cpp.get_0 3).
  - reflexivity.
  - reflexivity.
  - reflexivity.
  - exact (enum_cast_cpp_well_typed enum_cast_cpp.EnumShapeTag).
Defined.

(** X2.  Converting to the source type itself is the identity only on
    the values the table lists for that type: [enum_cast<E>(v)] with
    [v] of type [E] is [v] when some entry holds [v] in its [E] slot,
    and zero for every other [v]. *)
Theorem enum_cast_to_same_type
    (R : registry) (E : EnumT R)
    (get_E : mapping_type (enum_mapping_traits R (enum_category_t R E)) -> Z)
    (v : Z) :
  std_get (enum_mapping_traits R (enum_category_t R E)) E = Some get_E ->
  call (enum_cast R E E) v
  = Built (if existsb (fun e => get_E e =? v)
                (mappings (enum_mapping_traits R (enum_category_t R E)))
           then v else 0).
Proof.
  intros HE.
  rewrite (enum_cast_built R _ E E get_E get_E eq_refl eq_refl HE HE).
  simpl. f_equal.
  destruct (existsb _ _) eqn:Hex.
  - apply existsb_source_slot in Hex.
    destruct (enum_cast_scan_entry R get_E _ v Hex) as (e & _ & He & Hscan).
    rewrite Hscan. exact He.
  - rewrite enum_cast_scan_miss; [apply static_cast_0 |].
    intros m Hin Heq.
    assert (existsb (fun e => get_E e =? v)
              (mappings (enum_mapping_traits R (enum_category_t R E)))
            = true) as Habs
      by (apply existsb_source_slot; exists m; split; assumption).
    congruence.
Qed.

Lemma enum_cast_to_same_type_witness :
  call (enum_cast enum_cast_cpp.declarations
          enum_cast_cpp.lib_b_Color enum_cast_cpp.lib_b_Color)
       enum_cast_cpp.lib_b.Color.Yellow
  = Built (if existsb (fun e => enum_cast_cpp.get_1 e =? 3)
                (mappings enum_cast_cpp.enum_mapping_traits_EnumColorTag)
           then 3 else 0).
Proof.
  apply (enum_cast_to_same_type enum_cast_cpp.declarations
           enum_cast_cpp.lib_b_Color enum_cast_cpp.get_1 3).
  reflexivity.
Defined.

(** X3.  Conversions compose.  For member types [A], [B] and [C] of
    one category, a value [v] listed in the [A] slot of some entry and
    a table whose [B] column has no repeated value, converting [v] to
    [B] and the result to [C] gives what converting [v] to [C]
    directly gives. *)
Theorem enum_cast_composes
    (R : registry) (A B C : EnumT R)
    (get_A get_B get_C :
       mapping_type (enum_mapping_traits R (enum_category_t R A)) -> Z)
    (v : Z) :
  enum_category_t R B = enum_category_t R A ->
  enum_category_t R C = enum_category_t R A ->
  std_get (enum_mapping_traits R (enum_category_t R A)) A = Some get_A ->
  std_get (enum_mapping_traits R (enum_category_t R A)) B = Some get_B ->
  std_get (enum_mapping_traits R (enum_category_t R A)) C = Some get_C ->
  (exists e,
      In e (mappings (enum_mapping_traits R (enum_category_t R A)))
      /\ get_A e = v) ->
  NoDup (map get_B (mappings (enum_mapping_traits R (enum_category_t R A)))) ->
  exists w r,
    call (enum_cast R B A) v = Built w
    /\ call (enum_cast R C B) w = Built r
    /\ call (enum_cast R C A) v = Built r.
Proof.
  intros HcB HcC HA HB HC Hv Hnodup.
  rewrite (enum_cast_built R _ B A get_A get_B eq_refl HcB HA HB).
  rewrite (enum_cast_built R _ C B get_B get_C HcB HcC HB HC).
  rewrite (enum_cast_built R _ C A get_A get_C eq_refl HcC HA HC).
  simpl.
  destruct (enum_cast_scan_entry R get_A _ v Hv) as (e & Hin & He & Hscan).
  destruct (enum_cast_scan_entry R get_B
              (mappings (enum_mapping_traits R (enum_category_t R A)))
              (get_B e))
    as (e' & Hin' & He' & Hscan').
  { exists e. split; [exact Hin | reflexivity]. }
  exists (get_B e), (get_C e).
  rewrite !Hscan, Hscan'.
  rewrite (NoDup_map_injective get_B _ e' e Hnodup Hin' Hin He').
  repeat split.
Qed.

Lemma enum_cast_composes_witness :
  exists w r,
    call (enum_cast enum_cast_cpp.declarations
            enum_cast_cpp.lib_b_Shape enum_cast_cpp.lib_a_Shape)
         enum_cast_cpp.lib_a.Shape.Square = Built w
    /\ call (enum_cast enum_cast_cpp.declarations
               enum_cast_cpp.lib_c_Shape enum_cast_cpp.lib_b_Shape) w
       = Built r
    /\ call (enum_cast enum_cast_cpp.declarations
               enum_cast_cpp.lib_c_Shape enum_cast_cpp.lib_a_Shape)
            enum_cast_cpp.lib_a.Shape.Square = Built r.
Proof.
  apply (enum_cast_composes enum_cast_cpp.declarations
           enum_cast_cpp.lib_a_Shape enum_cast_cpp.lib_b_Shape
           enum_cast_cpp.lib_c_Shape
           enum_cast_cpp.get_0 enum_cast_cpp.get_1 enum_cast_cpp.get_2 9).
  - reflexivity.
  - reflexivity.
  - reflexivity.
  - reflexivity.
  - reflexivity.
  - exists (9, 1, 3). split; [right; left |]; reflexivity.
  - simpl. repeat constructor; simpl; intuition discriminate.
Defined.

(** X4.  An unlisted value does not survive a round trip.  When no
    entry holds [v] in its [A] slot and some entry has a zero [B]
    slot, [enum_cast<B>(v)] is zero, and converting that zero back to
    [A] gives the [A] slot of an entry whose [B] slot is zero: a
    listed value, different from [v]. *)
Theorem enum_cast_miss_round_trip
    (R : registry) (A B : EnumT R)
    (get_A get_B :
       mapping_type (enum_mapping_traits R (enum_category_t R A)) -> Z)
    (v : Z) :
  enum_category_t R B = enum_category_t R A ->
  std_get (enum_mapping_traits R (enum_category_t R A)) A = Some get_A ->
  std_get (enum_mapping_traits R (enum_category_t R A)) B = Some get_B ->
  (forall m,
      In m (mappings (enum_mapping_traits R (enum_category_t R A))) ->
      get_A m <> v) ->
  (exists e,
      In e (mappings (enum_mapping_traits R (enum_category_t R A)))
      /\ get_B e = 0) ->
  call (enum_cast R B A) v = Built 0
  /\ exists e,
       In e (mappings (enum_mapping_traits R (enum_category_t R A)))
       /\ get_B e = 0
       /\ call (enum_cast R A B) 0 = Built (get_A e)
       /\ get_A e <> v.
Proof.
  intros HcB HA HB Hmiss Hzero.
  rewrite (enum_cast_built R _ B A get_A get_B eq_refl HcB HA HB).
  rewrite (enum_cast_built R _ A B get_B get_A HcB eq_refl HB HA).
  simpl. split.
  - rewrite enum_cast_scan_miss by exact Hmiss.
    rewrite static_cast_0. reflexivity.
  - destruct (enum_cast_scan_entry R get_B _ 0 Hzero)
      as (e & Hin & He & Hscan).
    exists e. rewrite Hscan. repeat split; try assumption.
    apply Hmiss. exact Hin.
Qed.

Lemma enum_cast_miss_round_trip_witness :
  call (enum_cast enum_cast_cpp.declarations
          enum_cast_cpp.lib_b_Color enum_cast_cpp.lib_a_Color) 42
  = Built 0
  /\ exists e,
       In e (mappings enum_cast_cpp.enum_mapping_traits_EnumColorTag)
       /\ enum_cast_cpp.get_1 e = 0
       /\ call (enum_cast enum_cast_cpp.declarations
                  enum_cast_cpp.lib_a_Color enum_cast_cpp.lib_b_Color) 0
          = Built (enum_cast_cpp.get_0 e)
       /\ enum_cast_cpp.get_0 e <> 42.
Proof.
  apply (enum_cast_miss_round_trip enum_cast_cpp.declarations
           enum_cast_cpp.lib_a_Color enum_cast_cpp.lib_b_Color
           enum_cast_cpp.get_0 enum_cast_cpp.get_1 42).
  - reflexivity.
  - reflexivity.
  - reflexivity.
  - intros m [<- | [<- | [<- | []]]]; discriminate.
  - exists (3, 0, 9). split; [left |]; reflexivity.
Defined.

(** X5.  In the declared Color and Shape tables no column repeats a
    value: for any two member types of one category and every row of
    its table, converting the row's value to the other type and back
    returns it. *)
Theorem declared_tables_round_trip
    (A B : enum_cast_cpp.enum_type)
    (get_A :
       mapping_type
         (enum_mapping_traits enum_cast_cpp.declarations
            (enum_cast_cpp.enum_category A)) -> Z)
    (row : _) :
  enum_cast_cpp.enum_category A = enum_cast_cpp.enum_category B ->
  std_get (enum_mapping_traits enum_cast_cpp.declarations
             (enum_cast_cpp.enum_category A)) A = Some get_A ->
  In row (mappings (enum_mapping_traits enum_cast_cpp.declarations
                      (enum_cast_cpp.enum_category A))) ->
  exists w,
    call (enum_cast enum_cast_cpp.declarations B A) (get_A row) = Built w
    /\ call (enum_cast enum_cast_cpp.declarations A B) w
       = Built (get_A row).
Proof.
  intros Hcat HA Hrow.
  destruct A, B; simpl in Hcat; try discriminate Hcat;
    simpl in HA; injection HA as <-; simpl in Hrow;
    destruct Hrow as [<- | [<- | [<- | []]]];
    eexists; split; reflexivity.
Qed.

Lemma declared_tables_round_trip_witness :
  exists w,
    call (enum_cast enum_cast_cpp.declarations
            enum_cast_cpp.lib_b_Shape enum_cast_cpp.lib_c_Shape)
         enum_cast_cpp.lib_c.Shape.Triangle = Built w
    /\ call (enum_cast enum_cast_cpp.declarations
               enum_cast_cpp.lib_c_Shape enum_cast_cpp.lib_b_Shape) w
       = Built enum_cast_cpp.lib_c.Shape.Triangle.
Proof.
  apply (declared_tables_round_trip enum_cast_cpp.lib_c_Shape
           enum_cast_cpp.lib_b_Shape enum_cast_cpp.get_2 (16, 2, 4)).
  - reflexivity.
  - reflexivity.
  - right. right. left. reflexivity.
Defined.

(** ** The flag-bits converter, continued *)

Ltac bits :=
  apply Z.bits_inj'; intros ? _;
  repeat (rewrite Z.lor_spec || rewrite Z.land_spec);
  repeat match goal with
         | |- context [Z.testbit ?x ?n] =>
             let b := fresh "b" in
             generalize (Z.testbit x n); intro b; destruct b
         end;
  reflexivity.

Lemma land_lor_absorb d x : Z.land d (Z.lor d x) = d.
Proof. bits. Qed.

Section Union.

Context {M : Type}.
Variables get_Src get_Dst : M -> Z.

Local Abbreviation fires v := (fun m => to_bool (Z.land (get_Src m) v)).
Local Abbreviation union := (or_of_matching get_Src get_Dst).

Lemma or_of_matching_nil v : union [] v = 0.
Proof. reflexivity. Qed.

Lemma or_of_matching_step m rest v :
  union (m :: rest) v
  = if fires v m then Z.lor (get_Dst m) (union rest v) else union rest v.
Proof.
  unfold or_of_matching. simpl.
  destruct (to_bool (Z.land (get_Src m) v)); reflexivity.
Qed.

Lemma or_of_matching_permutation l l' v :
  Permutation l l' -> union l v = union l' v.
Proof.
  induction 1 as [| m l l' _ IH | m m' l | l l' l'' _ IH _ IH'].
  - reflexivity.
  - rewrite !or_of_matching_step, IH. reflexivity.
  - rewrite !or_of_matching_step.
    destruct (fires v m), (fires v m'); try reflexivity.
    rewrite !Z.lor_assoc, (Z.lor_comm (get_Dst m')). reflexivity.
  - congruence.
Qed.

(** Every entry that fires has all the bits of its destination slot
    in the union. *)
Lemma or_of_matching_contains l v e :
  In e l -> fires v e = true ->
  Z.land (get_Dst e) (union l v) = get_Dst e.
Proof.
  induction l as [| m rest IH]; intros Hin Hfire; [destruct Hin |].
  rewrite or_of_matching_step.
  destruct Hin as [-> | Hin].
  - rewrite Hfire. apply land_lor_absorb.
  - specialize (IH Hin Hfire).
    destruct (fires v m); [| exact IH].
    rewrite Z.land_lor_distr_r, IH. bits.
Qed.

(** Against a table of pairwise disjoint destination slots, the slot
    of an entry meets the union exactly when the entry fires. *)
Lemma land_or_of_matching_disjoint l v e :
  (forall y, In y l -> y = e \/ Z.land (get_Dst e) (get_Dst y) = 0) ->
  (fires v e = false -> Z.land (get_Dst e) (union l v) = 0)
  /\ (fires v e = true ->
      (Z.land (get_Dst e) (union l v) = 0
       \/ Z.land (get_Dst e) (union l v) = get_Dst e)).
Proof.
  induction l as [| m rest IH]; intros Hdisj.
  - rewrite or_of_matching_nil, Z.land_0_r. split; intros _; auto.
  - assert (forall y, In y rest ->
              y = e \/ Z.land (get_Dst e) (get_Dst y) = 0) as Hrest
      by (intros y Hy; apply Hdisj; right; exact Hy).
    destruct (IH Hrest) as [IHf IHt].
    rewrite or_of_matching_step.
    destruct (fires v m) eqn:Hm; [| split; assumption].
    rewrite Z.land_lor_distr_r.
    destruct (Hdisj m (or_introl eq_refl)) as [-> | Hzero].
    + split; [congruence |]. intros _. right.
      rewrite Z.land_diag. bits.
    + rewrite Hzero, Z.lor_0_l. split; assumption.
Qed.

Lemma fires_through_union l v e :
  (forall x y, In x l -> In y l ->
     x = y \/ Z.land (get_Dst x) (get_Dst y) = 0) ->
  (fires v e = true -> get_Dst e <> 0) ->
  In e l ->
  to_bool (Z.land (get_Dst e) (union l v)) = fires v e.
Proof.
  intros Hdisj Hnz Hin.
  assert (forall y, In y l -> y = e \/ Z.land (get_Dst e) (get_Dst y) = 0)
    as He.
  { intros y Hy. destruct (Hdisj e y Hin Hy) as [<- | H]; auto. }
  destruct (land_or_of_matching_disjoint l v e He) as [Hf _].
  destruct (fires v e) eqn:Hfire.
  - rewrite (or_of_matching_contains l v e Hin Hfire).
    unfold to_bool. destruct (Z.eqb_spec (get_Dst e) 0) as [Hz | _].
    + exfalso. exact (Hnz eq_refl Hz).
    + reflexivity.
  - rewrite (Hf eq_refl). reflexivity.
Qed.

End Union.

Lemma or_of_matching_same_tests {M : Type}
    (f f' g : M -> Z) (l : list M) (v v' : Z) :
  (forall m, In m l ->
     to_bool (Z.land (f m) v) = to_bool (Z.land (f' m) v')) ->
  or_of_matching f g l v = or_of_matching f' g l v'.
Proof.
  induction l as [| m rest IH]; intros Hsame; [reflexivity |].
  rewrite !or_of_matching_step.
  rewrite (Hsame m (or_introl eq_refl)).
  rewrite IH by (intros m' Hin; apply Hsame; right; exact Hin).
  reflexivity.
Qed.

Lemma enum_flag_bits_loop_same_tests (R : registry) {M : Type}
    (Dst : EnumT R) (get_Src get_Dst : M -> Z) (l : list M) (v v' dst : Z) :
  (forall m, In m l ->
     to_bool (Z.land (get_Src m) v) = to_bool (Z.land (get_Src m) v')) ->
  enum_flag_bits_loop R Dst get_Src get_Dst l v dst
  = enum_flag_bits_loop R Dst get_Src get_Dst l v' dst.
Proof.
  revert dst. induction l as [| m rest IH]; intros dst Hsame; [reflexivity |].
  simpl. rewrite (Hsame m (or_introl eq_refl)).
  apply IH. intros m' Hin. apply Hsame. right. exact Hin.
Qed.

(** X6.  What [enum_flag_bits_cast] returns.  For an unscoped source
    enumeration (line 58 needs the built-in [&]) and a table whose
    tuples hold values of their element types, the result is the
    content the storage of [dst] had on entry, ORed with the [Dst]
    slots of the entries whose [Src] slot shares a bit with the
    input. *)
Theorem enum_flag_bits_cast_result
    (R : registry) (Dst Src : EnumT R)
    (get_Src get_Dst :
       mapping_type (enum_mapping_traits R (enum_category_t R Src)) -> Z)
    (indeterminate v : Z) :
  enum_category_t R Src = enum_category_t R Dst ->
  std_get (enum_mapping_traits R (enum_category_t R Src)) Src
    = Some get_Src ->
  std_get (enum_mapping_traits R (enum_category_t R Src)) Dst
    = Some get_Dst ->
  is_scoped_enum_v R Src = false ->
  well_typed R (enum_mapping_traits R (enum_category_t R Src)) ->
  Integral.in_range (underlying_type_t R Dst) indeterminate ->
  call2 (enum_flag_bits_cast R Dst Src) indeterminate v
  = Built (Z.lor indeterminate
             (or_of_matching get_Src get_Dst
                (mappings (enum_mapping_traits R (enum_category_t R Src)))
                v)).
Proof.
  intros Hcat Hsrc Hdst Hunscoped Htyped Hfit.
  exact (enum_flag_bits_cast_accumulates R Dst Src get_Src get_Dst
           Hcat Hsrc Hdst Hunscoped Htyped indeterminate v Hfit).
Qed.

Lemma enum_flag_bits_cast_result_witness :
  call2 (enum_flag_bits_cast enum_flag_bits_cast_cpp.declarations
           enum_flag_bits_cast_cpp.lib_b_Permission
           enum_flag_bits_cast_cpp.lib_a_Permission)
        0x80 enum_flag_bits_cast_cpp.lib_a.Permission.ReadWrite
  = Built (Z.lor 0x80
             (or_of_matching enum_flag_bits_cast_cpp.get_0
                enum_flag_bits_cast_cpp.get_1
                (mappings
                   enum_flag_bits_cast_cpp.enum_mapping_traits_PermissionTag)
                enum_flag_bits_cast_cpp.lib_a.Permission.ReadWrite)).
Proof.
  apply (enum_flag_bits_cast_result enum_flag_bits_cast_cpp.declarations
           enum_flag_bits_cast_cpp.lib_b_Permission
           enum_flag_bits_cast_cpp.lib_a_Permission
           enum_flag_bits_cast_cpp.get_0 enum_flag_bits_cast_cpp.get_1
           0x80 3).
  - reflexivity.
  - reflexivity.
  - reflexivity.
  - reflexivity.
  - exact (enum_flag_bits_cast_cpp_well_typed
             enum_flag_bits_cast_cpp.PermissionTag).
  - vm_compute. split; discriminate.
Defined.

(** X7.  The order of the table does not matter to the flag
    conversion (it does to [enum_cast]): for an unscoped source
    enumeration, over any permutation of a table whose tuples hold
    values of their element types the result is the same. *)
Theorem enum_flag_bits_cast_order_irrelevant
    (R : registry) (Dst Src : EnumT R)
    (get_Src get_Dst :
       mapping_type (enum_mapping_traits R (enum_category_t R Src)) -> Z)
    (table : list _) (indeterminate v : Z) :
  enum_category_t R Src = enum_category_t R Dst ->
  std_get (enum_mapping_traits R (enum_category_t R Src)) Src
    = Some get_Src ->
  std_get (enum_mapping_traits R (enum_category_t R Src)) Dst
    = Some get_Dst ->
  is_scoped_enum_v R Src = false ->
  well_typed R (enum_mapping_traits R (enum_category_t R Src)) ->
  Integral.in_range (underlying_type_t R Dst) indeterminate ->
  Permutation (mappings (enum_mapping_traits R (enum_category_t R Src)))
    table ->
  exists r,
    call2 (enum_flag_bits_cast R Dst Src) indeterminate v = Built r
    /\ call2 (enum_flag_bits_cast
                (with_mappings R (enum_category_t R Src) table) Dst Src)
         indeterminate v = Built r.
Proof.
  intros Hcat Hsrc Hdst Hunscoped Htyped Hfit Hperm.
  assert (forall l,
            Permutation
              (mappings (enum_mapping_traits R (enum_category_t R Src))) l ->
            forall m, In m l ->
              Integral.in_range (underlying_type_t R Dst) (get_Dst m))
    as Hslots.
  { intros l Hl m Hin. apply (Htyped Dst get_Dst m Hdst).
    apply (Permutation_in m (Permutation_sym Hl) Hin). }
  rewrite (enum_flag_bits_cast_accumulates R Dst Src get_Src get_Dst
             Hcat Hsrc Hdst Hunscoped Htyped indeterminate v Hfit).
  rewrite (enum_flag_bits_cast_with_mappings R Dst Src get_Src get_Dst
             Hcat Hsrc Hdst Hunscoped).
  unfold call2, call. eexists. split; [reflexivity |]. f_equal.
  rewrite enum_flag_bits_loop_or by (try apply (Hslots table); assumption).
  rewrite static_cast_id.
  - rewrite (or_of_matching_permutation get_Src get_Dst _ _ v Hperm).
    reflexivity.
  - apply IntegralFacts.lor_in_range; [exact Hfit |].
    apply or_of_matching_in_range. apply (Hslots table Hperm).
Qed.

Lemma enum_flag_bits_cast_order_irrelevant_witness :
  exists r,
    call2 (enum_flag_bits_cast enum_flag_bits_cast_cpp.declarations
             enum_flag_bits_cast_cpp.lib_a_Permission
             enum_flag_bits_cast_cpp.lib_b_Permission) 0 12 = Built r
    /\ call2 (enum_flag_bits_cast
                (with_mappings enum_flag_bits_cast_cpp.declarations
                   enum_flag_bits_cast_cpp.PermissionTag
                   [(1, 4); (0, 0); (2, 8); (4, 16)])
                enum_flag_bits_cast_cpp.lib_a_Permission
                enum_flag_bits_cast_cpp.lib_b_Permission) 0 12 = Built r.
Proof.
  apply (enum_flag_bits_cast_order_irrelevant
           enum_flag_bits_cast_cpp.declarations
           enum_flag_bits_cast_cpp.lib_a_Permission
           enum_flag_bits_cast_cpp.lib_b_Permission
           enum_flag_bits_cast_cpp.get_1 enum_flag_bits_cast_cpp.get_0
           [(1, 4); (0, 0); (2, 8); (4, 16)] 0 12).
  - reflexivity.
  - reflexivity.
  - reflexivity.
  - reflexivity.
  - exact (enum_flag_bits_cast_cpp_well_typed
             enum_flag_bits_cast_cpp.PermissionTag).
  - vm_compute. split; discriminate.
  - apply perm_swap.
Defined.

(** X8.  Flag union, as the code keeps it: when the three calls find
    the same content in the storage of [dst], converting [a | b] gives
    the OR of the conversion of [a] and the conversion of [b], for
    an unscoped source enumeration, every table whose tuples hold
    values of their element types and all values [a], [b] of the
    source type. *)
Theorem enum_flag_bits_cast_union
    (R : registry) (Dst Src : EnumT R)
    (get_Src get_Dst :
       mapping_type (enum_mapping_traits R (enum_category_t R Src)) -> Z)
    (indeterminate a b : Z) :
  enum_category_t R Src = enum_category_t R Dst ->
  std_get (enum_mapping_traits R (enum_category_t R Src)) Src
    = Some get_Src ->
  std_get (enum_mapping_traits R (enum_category_t R Src)) Dst
    = Some get_Dst ->
  is_scoped_enum_v R Src = false ->
  well_typed R (enum_mapping_traits R (enum_category_t R Src)) ->
  Integral.in_range (underlying_type_t R Dst) indeterminate ->
  Integral.in_range (underlying_type_t R Src) a ->
  Integral.in_range (underlying_type_t R Src) b ->
  exists ra rb,
    call2 (enum_flag_bits_cast R Dst Src) indeterminate a = Built ra
    /\ call2 (enum_flag_bits_cast R Dst Src) indeterminate b = Built rb
    /\ call2 (enum_flag_bits_cast R Dst Src) indeterminate
         (operator_or R Src a b)
       = Built (operator_or R Dst ra rb).
Proof.
  intros Hcat Hsrc Hdst Hunscoped Htyped Hfit Ha Hb.
  exact (flag_union_from_equal_accumulators R Dst Src get_Src get_Dst
           Hcat Hsrc Hdst Hunscoped Htyped indeterminate a b Hfit Ha Hb).
Qed.

Lemma enum_flag_bits_cast_union_witness :
  exists ra rb,
    call2 (enum_flag_bits_cast enum_flag_bits_cast_cpp.declarations
             enum_flag_bits_cast_cpp.lib_a_Permission
             enum_flag_bits_cast_cpp.lib_b_Permission) 0x40 4 = Built ra
    /\ call2 (enum_flag_bits_cast enum_flag_bits_cast_cpp.declarations
                enum_flag_bits_cast_cpp.lib_a_Permission
                enum_flag_bits_cast_cpp.lib_b_Permission) 0x40 16 = Built rb
    /\ call2 (enum_flag_bits_cast enum_flag_bits_cast_cpp.declarations
                enum_flag_bits_cast_cpp.lib_a_Permission
                enum_flag_bits_cast_cpp.lib_b_Permission) 0x40
         (operator_or enum_flag_bits_cast_cpp.declarations
            enum_flag_bits_cast_cpp.lib_b_Permission 4 16)
       = Built (operator_or enum_flag_bits_cast_cpp.declarations
                  enum_flag_bits_cast_cpp.lib_a_Permission ra rb).
Proof.
  apply (enum_flag_bits_cast_union enum_flag_bits_cast_cpp.declarations
           enum_flag_bits_cast_cpp.lib_a_Permission
           enum_flag_bits_cast_cpp.lib_b_Permission
           enum_flag_bits_cast_cpp.get_1 enum_flag_bits_cast_cpp.get_0
           0x40 4 16).
  - reflexivity.
  - reflexivity.
  - reflexivity.
  - reflexivity.
  - exact (enum_flag_bits_cast_cpp_well_typed
             enum_flag_bits_cast_cpp.PermissionTag).
  - vm_compute. split; discriminate.
  - vm_compute. split; discriminate.
  - vm_compute. split; discriminate.
Defined.

(** X9.  Bits without a mapping are dropped: for an unscoped source
    enumeration, when [extra] shares no bit with the [Src] slot of any
    entry, converting [v | extra] gives what converting [v] gives,
    from the same content of the storage of [dst]. *)
Theorem enum_flag_bits_cast_drops_unmapped
    (R : registry) (Dst Src : EnumT R)
    (get_Src get_Dst :
       mapping_type (enum_mapping_traits R (enum_category_t R Src)) -> Z)
    (indeterminate v extra : Z) :
  enum_category_t R Src = enum_category_t R Dst ->
  std_get (enum_mapping_traits R (enum_category_t R Src)) Src
    = Some get_Src ->
  std_get (enum_mapping_traits R (enum_category_t R Src)) Dst
    = Some get_Dst ->
  is_scoped_enum_v R Src = false ->
  (forall m,
      In m (mappings (enum_mapping_traits R (enum_category_t R Src))) ->
      Z.land (get_Src m) extra = 0) ->
  exists r,
    call2 (enum_flag_bits_cast R Dst Src) indeterminate v = Built r
    /\ call2 (enum_flag_bits_cast R Dst Src) indeterminate (Z.lor v extra)
       = Built r.
Proof.
  intros Hcat Hsrc Hdst Hunscoped Hextra.
  rewrite (enum_flag_bits_cast_built R _ Dst Src get_Src get_Dst eq_refl
             (eq_sym Hcat) Hsrc Hdst Hunscoped).
  unfold call2, call. eexists. split; [reflexivity |]. do 2 f_equal.
  apply enum_flag_bits_loop_same_tests. intros m Hin.
  rewrite to_bool_land_lor.
  rewrite (Hextra m Hin). apply orb_false_r.
Qed.

Lemma enum_flag_bits_cast_drops_unmapped_witness :
  exists r,
    call2 (enum_flag_bits_cast enum_flag_bits_cast_cpp.declarations
             enum_flag_bits_cast_cpp.lib_a_Permission
             enum_flag_bits_cast_cpp.lib_b_Permission) 0
          enum_flag_bits_cast_cpp.lib_b.Permission.READ = Built r
    /\ call2 (enum_flag_bits_cast enum_flag_bits_cast_cpp.declarations
                enum_flag_bits_cast_cpp.lib_a_Permission
                enum_flag_bits_cast_cpp.lib_b_Permission) 0
             (Z.lor enum_flag_bits_cast_cpp.lib_b.Permission.READ 0x23)
       = Built r.
Proof.
  apply (enum_flag_bits_cast_drops_unmapped
           enum_flag_bits_cast_cpp.declarations
           enum_flag_bits_cast_cpp.lib_a_Permission
           enum_flag_bits_cast_cpp.lib_b_Permission
           enum_flag_bits_cast_cpp.get_1 enum_flag_bits_cast_cpp.get_0
           0 4 0x23).
  - reflexivity.
  - reflexivity.
  - reflexivity.
  - reflexivity.
  - intros m [<- | [<- | [<- | [<- | []]]]]; reflexivity.
Defined.

(** X10.  The AND test asks for a shared bit, not for containment:
    for an unscoped source enumeration and a table whose tuples hold
    values of their element types, an entry whose [Src] slot shares
    any bit with the input puts every bit of its [Dst] slot into the
    result. *)
Theorem enum_flag_bits_cast_entry_contributes
    (R : registry) (Dst Src : EnumT R)
    (get_Src get_Dst :
       mapping_type (enum_mapping_traits R (enum_category_t R Src)) -> Z)
    (entry : _) (indeterminate v : Z) :
  enum_category_t R Src = enum_category_t R Dst ->
  std_get (enum_mapping_traits R (enum_category_t R Src)) Src
    = Some get_Src ->
  std_get (enum_mapping_traits R (enum_category_t R Src)) Dst
    = Some get_Dst ->
  is_scoped_enum_v R Src = false ->
  well_typed R (enum_mapping_traits R (enum_category_t R Src)) ->
  Integral.in_range (underlying_type_t R Dst) indeterminate ->
  In entry (mappings (enum_mapping_traits R (enum_category_t R Src))) ->
  Z.land (get_Src entry) v <> 0 ->
  exists r,
    call2 (enum_flag_bits_cast R Dst Src) indeterminate v = Built r
    /\ Z.land (get_Dst entry) r = get_Dst entry.
Proof.
  intros Hcat Hsrc Hdst Hunscoped Htyped Hfit Hin Hmeet.
  rewrite (enum_flag_bits_cast_accumulates R Dst Src get_Src get_Dst
             Hcat Hsrc Hdst Hunscoped Htyped indeterminate v Hfit).
  eexists. split; [reflexivity |].
  assert (to_bool (Z.land (get_Src entry) v) = true) as Hfire.
  { destruct (to_bool _) eqn:H; [reflexivity |].
    apply to_bool_false_iff in H. contradiction. }
  pose proof (or_of_matching_contains get_Src get_Dst _ v entry Hin Hfire)
    as Hcontains.
  rewrite Z.land_lor_distr_r, Hcontains. bits.
Qed.

Lemma enum_flag_bits_cast_entry_contributes_witness :
  exists r,
    call2 (enum_flag_bits_cast
             (with_mappings enum_flag_bits_cast_cpp.declarations
                enum_flag_bits_cast_cpp.PermissionTag
                [ (enum_flag_bits_cast_cpp.lib_a.Permission.ReadWrite,
                   Z.lor enum_flag_bits_cast_cpp.lib_b.Permission.READ
                         enum_flag_bits_cast_cpp.lib_b.Permission.WRITE) ])
             enum_flag_bits_cast_cpp.lib_b_Permission
             enum_flag_bits_cast_cpp.lib_a_Permission)
          0 enum_flag_bits_cast_cpp.lib_a.Permission.Read = Built r
    /\ Z.land 12 r = 12.
Proof.
  apply (enum_flag_bits_cast_entry_contributes
           (with_mappings enum_flag_bits_cast_cpp.declarations
              enum_flag_bits_cast_cpp.PermissionTag [(3, 12)])
           enum_flag_bits_cast_cpp.lib_b_Permission
           enum_flag_bits_cast_cpp.lib_a_Permission
           enum_flag_bits_cast_cpp.get_0 enum_flag_bits_cast_cpp.get_1
           (3, 12) 0 1).
  - reflexivity.
  - reflexivity.
  - reflexivity.
  - reflexivity.
  - intros E get_E m Hget Hin.
    destruct E; simpl in Hget; injection Hget as <-;
      destruct Hin as [<- | []]; vm_compute; split; discriminate.
  - vm_compute. split; discriminate.
  - left. reflexivity.
  - discriminate.
Defined.

(** X11.  Round trip of flags from zeroed storage.  For unscoped
    enumerations [A] and [B] (each is the source of one of the two
    calls), when the [B] slots of the table are pairwise disjoint and
    non-zero for the entries that fire, converting [v] from [A] to [B]
    and back yields the OR of the [A] slots that share a bit with [v],
    provided the storage of [dst] holds zero at both calls. *)
Theorem enum_flag_bits_cast_round_trip
    (R : registry) (A B : EnumT R)
    (get_A get_B :
       mapping_type (enum_mapping_traits R (enum_category_t R A)) -> Z)
    (v : Z) :
  enum_category_t R B = enum_category_t R A ->
  std_get (enum_mapping_traits R (enum_category_t R A)) A = Some get_A ->
  std_get (enum_mapping_traits R (enum_category_t R A)) B = Some get_B ->
  is_scoped_enum_v R A = false ->
  is_scoped_enum_v R B = false ->
  well_typed R (enum_mapping_traits R (enum_category_t R A)) ->
  (forall x y,
      In x (mappings (enum_mapping_traits R (enum_category_t R A))) ->
      In y (mappings (enum_mapping_traits R (enum_category_t R A))) ->
      x = y \/ Z.land (get_B x) (get_B y) = 0) ->
  (forall e,
      In e (mappings (enum_mapping_traits R (enum_category_t R A))) ->
      Z.land (get_A e) v <> 0 -> get_B e <> 0) ->
  exists w,
    call2 (enum_flag_bits_cast R B A) 0 v = Built w
    /\ call2 (enum_flag_bits_cast R A B) 0 w
       = Built (or_of_matching get_A get_A
                  (mappings (enum_mapping_traits R (enum_category_t R A)))
                  v).
Proof.
  intros HcB HA HB HuA HuB Htyped Hdisj Hnz.
  pose (T := enum_mapping_traits R (enum_category_t R A)).
  assert (forall E g, std_get T E = Some g -> forall m, In m (mappings T) ->
            Integral.in_range (underlying_type_t R E) (g m)) as Hslots
    by (intros E g Hg m Hin; exact (Htyped E g m Hg Hin)).
  rewrite (enum_flag_bits_cast_built R _ B A get_A get_B eq_refl HcB HA HB
             HuA).
  rewrite (enum_flag_bits_cast_built R _ A B get_B get_A HcB eq_refl HB HA
             HuB).
  unfold call2, call. fold T.
  assert (forall w,
            enum_flag_bits_loop R B get_A get_B (mappings T) w 0
            = or_of_matching get_A get_B (mappings T) w) as Hforth.
  { intros w. rewrite enum_flag_bits_loop_or.
    - apply Z.lor_0_l.
    - apply IntegralFacts.in_range_0.
    - exact (Hslots B get_B HB). }
  assert (forall w,
            enum_flag_bits_loop R A get_B get_A (mappings T) w 0
            = or_of_matching get_B get_A (mappings T) w) as Hback.
  { intros w. rewrite enum_flag_bits_loop_or.
    - apply Z.lor_0_l.
    - apply IntegralFacts.in_range_0.
    - exact (Hslots A get_A HA). }
  exists (or_of_matching get_A get_B (mappings T) v). split.
  { rewrite Hforth, static_cast_id; [reflexivity |].
    apply or_of_matching_in_range. exact (Hslots B get_B HB). }
  rewrite Hback, static_cast_id
    by (apply or_of_matching_in_range; exact (Hslots A get_A HA)).
  f_equal.
  apply or_of_matching_same_tests. intros m Hin.
  apply fires_through_union; [exact Hdisj | | exact Hin].
  intros Hfire. apply (Hnz m Hin). intros Hzero.
  rewrite Hzero in Hfire. discriminate Hfire.
Qed.

Lemma enum_flag_bits_cast_round_trip_witness :
  exists w,
    call2 (enum_flag_bits_cast enum_flag_bits_cast_cpp.declarations
             enum_flag_bits_cast_cpp.lib_b_Permission
             enum_flag_bits_cast_cpp.lib_a_Permission) 0
          enum_flag_bits_cast_cpp.lib_a.Permission.ReadExecute = Built w
    /\ call2 (enum_flag_bits_cast enum_flag_bits_cast_cpp.declarations
                enum_flag_bits_cast_cpp.lib_a_Permission
                enum_flag_bits_cast_cpp.lib_b_Permission) 0 w
       = Built (or_of_matching enum_flag_bits_cast_cpp.get_0
                  enum_flag_bits_cast_cpp.get_0
                  (mappings
                     enum_flag_bits_cast_cpp.enum_mapping_traits_PermissionTag)
                  enum_flag_bits_cast_cpp.lib_a.Permission.ReadExecute).
Proof.
  apply (enum_flag_bits_cast_round_trip enum_flag_bits_cast_cpp.declarations
           enum_flag_bits_cast_cpp.lib_a_Permission
           enum_flag_bits_cast_cpp.lib_b_Permission
           enum_flag_bits_cast_cpp.get_0 enum_flag_bits_cast_cpp.get_1 5).
  - reflexivity.
  - reflexivity.
  - reflexivity.
  - reflexivity.
  - reflexivity.
  - exact (enum_flag_bits_cast_cpp_well_typed
             enum_flag_bits_cast_cpp.PermissionTag).
  - intros x y [<- | [<- | [<- | [<- | []]]]] [<- | [<- | [<- | [<- | []]]]];
      solve [left; reflexivity | right; reflexivity].
  - intros e [<- | [<- | [<- | [<- | []]]]] Hmeet; vm_compute in Hmeet |- *;
      congruence.
Defined.

(** ** The enum-typed bitwise OR, continued *)

(** X12.  On the values of an enum type [operator|] is commutative,
    associative and idempotent, and the zero value is neutral for
    it. *)
Theorem operator_or_laws
    (R : registry) (Enum : EnumT R) (a b c : Z) :
  Integral.in_range (underlying_type_t R Enum) a ->
  Integral.in_range (underlying_type_t R Enum) b ->
  Integral.in_range (underlying_type_t R Enum) c ->
  operator_or R Enum a b = operator_or R Enum b a
  /\ operator_or R Enum (operator_or R Enum a b) c
     = operator_or R Enum a (operator_or R Enum b c)
  /\ operator_or R Enum a a = a
  /\ operator_or R Enum 0 a = a.
Proof.
  intros Ha Hb Hc.
  pose proof (IntegralFacts.in_range_0 (underlying_type_t R Enum)) as H0.
  repeat split.
  - rewrite !operator_or_lor by assumption. apply Z.lor_comm.
  - rewrite (operator_or_lor R Enum a b), (operator_or_lor R Enum b c)
      by assumption.
    rewrite !operator_or_lor
      by (try apply IntegralFacts.lor_in_range; assumption).
    symmetry. apply Z.lor_assoc.
  - rewrite operator_or_lor by assumption. apply Z.lor_diag.
  - rewrite operator_or_lor by assumption. apply Z.lor_0_l.
Qed.

Lemma operator_or_laws_witness :
  operator_or enum_flag_bits_cast_cpp.declarations
    enum_flag_bits_cast_cpp.lib_a_Permission 1 2
  = operator_or enum_flag_bits_cast_cpp.declarations
      enum_flag_bits_cast_cpp.lib_a_Permission 2 1
  /\ operator_or enum_flag_bits_cast_cpp.declarations
       enum_flag_bits_cast_cpp.lib_a_Permission
       (operator_or enum_flag_bits_cast_cpp.declarations
          enum_flag_bits_cast_cpp.lib_a_Permission 1 2) 4
     = operator_or enum_flag_bits_cast_cpp.declarations
         enum_flag_bits_cast_cpp.lib_a_Permission 1
         (operator_or enum_flag_bits_cast_cpp.declarations
            enum_flag_bits_cast_cpp.lib_a_Permission 2 4)
  /\ operator_or enum_flag_bits_cast_cpp.declarations
       enum_flag_bits_cast_cpp.lib_a_Permission 1 1 = 1
  /\ operator_or enum_flag_bits_cast_cpp.declarations
       enum_flag_bits_cast_cpp.lib_a_Permission 0 1 = 1.
Proof.
  apply (operator_or_laws enum_flag_bits_cast_cpp.declarations
           enum_flag_bits_cast_cpp.lib_a_Permission 1 2 4).
  - vm_compute. split; discriminate.
  - vm_compute. split; discriminate.
  - vm_compute. split; discriminate.
Defined.

(** ** Output *)









(** ** The zero input *)

Lemma enum_flag_bits_loop_zero (R : registry) {M : Type}
    (Dst : EnumT R) (get_Src get_Dst : M -> Z) (table : list M) (dst : Z) :
  enum_flag_bits_loop R Dst get_Src get_Dst table 0 dst = dst.
Proof.
  induction table as [| m rest IH]; simpl; [reflexivity |].
  rewrite Z.land_0_r. exact IH.
Qed.

(** X15.  Converting the zero value fires no entry, whatever the
    table: for an unscoped source enumeration,
    [enum_flag_bits_cast<Dst>(0)] returns the content the storage of
    [dst] had on entry. *)
Theorem enum_flag_bits_cast_of_zero
    (R : registry) (Dst Src : EnumT R)
    (get_Src get_Dst :
       mapping_type (enum_mapping_traits R (enum_category_t R Src)) -> Z)
    (indeterminate : Z) :
  enum_category_t R Src = enum_category_t R Dst ->
  std_get (enum_mapping_traits R (enum_category_t R Src)) Src
    = Some get_Src ->
  std_get (enum_mapping_traits R (enum_category_t R Src)) Dst
    = Some get_Dst ->
  is_scoped_enum_v R Src = false ->
  Integral.in_range (underlying_type_t R Dst) indeterminate ->
  call2 (enum_flag_bits_cast R Dst Src) indeterminate 0
  = Built indeterminate.
Proof.
  intros Hcat Hsrc Hdst Hunscoped Hfit.
  rewrite (enum_flag_bits_cast_built R _ Dst Src get_Src get_Dst eq_refl
             (eq_sym Hcat) Hsrc Hdst Hunscoped).
  unfold call2, call. rewrite enum_flag_bits_loop_zero.
  rewrite static_cast_id by exact Hfit. reflexivity.
Qed.

Lemma enum_flag_bits_cast_of_zero_witness :
  call2 (enum_flag_bits_cast enum_flag_bits_cast_cpp.declarations
           enum_flag_bits_cast_cpp.lib_b_Permission
           enum_flag_bits_cast_cpp.lib_a_Permission)
        0x1F enum_flag_bits_cast_cpp.lib_a.Permission.None
  = Built 0x1F.
Proof.
  apply (enum_flag_bits_cast_of_zero enum_flag_bits_cast_cpp.declarations
           enum_flag_bits_cast_cpp.lib_b_Permission
           enum_flag_bits_cast_cpp.lib_a_Permission
           enum_flag_bits_cast_cpp.get_0 enum_flag_bits_cast_cpp.get_1 0x1F).
  - reflexivity.
  - reflexivity.
  - reflexivity.
  - reflexivity.
  - vm_compute. split; discriminate.
Defined.
